(** * motors.c: discovery of brushless motor controllers and the chained
      transmission of their setpoints

    A shallow embedding of [src/motors.c].  The module's file-scope variables
    become the record [State]; every C function becomes a function on that
    record.  The I2C transport ([i2c.h]), the EEPROM ([eeprom.h]) and the error
    bit masks of [motors.h] are not part of the file: the transport is an
    explicit environment, the EEPROM byte an argument, and the three masks are
    variables of the section. *)

From Stdlib Require Import ZArith Lia Bool List.
From stdpp Require Import base list list_numbers.

Local Open Scope Z_scope.

(** ** Machine integers *)

(** [(uint8_t)x]: the value is reduced modulo 2^8. *)
Definition u8 (x : Z) : Z := x mod 256.

Definition is_u8 (x : Z) : Prop := 0 <= x < 256.
Definition is_u16 (x : Z) : Prop := 0 <= x < 65536.

(** C's logical negation [!x]: 1 when [x] is zero, 0 otherwise. *)
Definition lnot (x : Z) : Z := if x =? 0 then 1 else 0.

(** An integer used as a condition: true when it is not zero. *)
Definition nonzero (x : Z) : bool := negb (x =? 0).

(** ** Private data *)

Definition MOTORS_MAX : Z := 8.
Definition MOTORS_BASE_ADDRESS : Z := 0x52.

(** [enum BLCStatusCode].  The field arrives as a raw byte from the bus, so a
    status code is any [Z] and the enumerators are names for some of them. *)
Definition BLC_STATUS_UNKNOWN : Z := 0.
Definition BLC_STATUS_MISMATCH : Z := 1.
Definition BLC_STATUS_STARTING : Z := 40.
Definition BLC_STATUS_V3_FAST_READY : Z := 248.
Definition BLC_STATUS_V3_READY : Z := 249.
Definition BLC_STATUS_V2_READY : Z := 250.
Definition BLC_STATUS_RUNNING_REDUNDANT : Z := 254.
Definition BLC_STATUS_RUNNING : Z := 255.

(** [enum BLCFeatureBitfield]. *)
Definition BLC_FEATURE_EXTENDED_STATUS : Z := Z.shiftl 1 0.
Definition BLC_FEATURE_V3 : Z := Z.shiftl 1 1.
Definition BLC_FEATURE_20KHz : Z := Z.shiftl 1 2.

(** [struct MotorSetpoint]. *)
Record MotorSetpoint : Type := mkMotorSetpoint {
  bits_11_to_3 : Z;
  bits_2_to_0 : Z
}.

(** [struct BLCStatus]: the nine bytes a controller answers with. *)
Record BLCStatus : Type := mkBLCStatus {
  current : Z;
  status_code : Z;
  temperature : Z;
  rpm : Z;
  extra : Z;
  voltage : Z;
  i2c_errors : Z;
  version_major : Z;
  version_minor : Z
}.

Definition sizeof_uint8_t : Z := 1.
Definition sizeof_uint16_t : Z := 2.
Definition sizeof_BLCStatus : Z := 9.

Definition zero_setpoint : MotorSetpoint := mkMotorSetpoint 0 0.
Definition zero_status : BLCStatus := mkBLCStatus 0 0 0 0 0 0 0 0 0.

#[global] Instance MotorSetpoint_inhabited : Inhabited MotorSetpoint :=
  populate zero_setpoint.
#[global] Instance BLCStatus_inhabited : Inhabited BLCStatus :=
  populate zero_status.

(** The file-scope variables of the module. *)
Record State : Type := mkState {
  setpoints_ : list MotorSetpoint;
  blc_status_ : list BLCStatus;
  blc_error_bitfield_ : Z;
  blc_feature_bitfield_ : Z;
  n_motors_ : Z;
  setpoint_length_ : Z;
  comms_in_progress_ : Z
}.

(** The values the variables have when the program starts: the initialisers of
    the file, zero for what has none. *)
Definition init_state : State := {|
  setpoints_ := replicate (Z.to_nat MOTORS_MAX) zero_setpoint;
  blc_status_ := replicate (Z.to_nat MOTORS_MAX) zero_status;
  blc_error_bitfield_ := 0x00;
  blc_feature_bitfield_ := 0x00;
  n_motors_ := 0;
  setpoint_length_ := sizeof_uint8_t;
  comms_in_progress_ := 0
|}.

(** Both arrays are declared with [MOTORS_MAX] entries. *)
Definition arrays_ok (s : State) : Prop :=
  length (setpoints_ s) = Z.to_nat MOTORS_MAX /\
  length (blc_status_ s) = Z.to_nat MOTORS_MAX.

(** Assignments to one variable. *)
Definition set_setpoints (v : list MotorSetpoint) (s : State) : State :=
  mkState v (blc_status_ s) (blc_error_bitfield_ s) (blc_feature_bitfield_ s)
          (n_motors_ s) (setpoint_length_ s) (comms_in_progress_ s).
Definition set_blc_status (v : list BLCStatus) (s : State) : State :=
  mkState (setpoints_ s) v (blc_error_bitfield_ s) (blc_feature_bitfield_ s)
          (n_motors_ s) (setpoint_length_ s) (comms_in_progress_ s).
Definition set_blc_error_bitfield (v : Z) (s : State) : State :=
  mkState (setpoints_ s) (blc_status_ s) v (blc_feature_bitfield_ s)
          (n_motors_ s) (setpoint_length_ s) (comms_in_progress_ s).
Definition set_blc_feature_bitfield (v : Z) (s : State) : State :=
  mkState (setpoints_ s) (blc_status_ s) (blc_error_bitfield_ s) v
          (n_motors_ s) (setpoint_length_ s) (comms_in_progress_ s).
Definition set_n_motors (v : Z) (s : State) : State :=
  mkState (setpoints_ s) (blc_status_ s) (blc_error_bitfield_ s)
          (blc_feature_bitfield_ s) v (setpoint_length_ s) (comms_in_progress_ s).
Definition set_setpoint_length (v : Z) (s : State) : State :=
  mkState (setpoints_ s) (blc_status_ s) (blc_error_bitfield_ s)
          (blc_feature_bitfield_ s) (n_motors_ s) v (comms_in_progress_ s).
Definition set_comms_in_progress (v : Z) (s : State) : State :=
  mkState (setpoints_ s) (blc_status_ s) (blc_error_bitfield_ s)
          (blc_feature_bitfield_ s) (n_motors_ s) (setpoint_length_ s) v.

(** [blc_error_bitfield_ |= mask] and [blc_feature_bitfield_ |= mask]; the
    variables are [uint8_t], so the result of the [int] disjunction is stored
    modulo 2^8. *)
Definition or_error (mask : Z) (s : State) : State :=
  set_blc_error_bitfield (u8 (Z.lor (blc_error_bitfield_ s) mask)) s.
Definition or_feature (mask : Z) (s : State) : State :=
  set_blc_feature_bitfield (u8 (Z.lor (blc_feature_bitfield_ s) mask)) s.

(** [blc_status_[i] = v], the whole record at once. *)
Definition store_blc_status (i : Z) (v : BLCStatus) (s : State) : State :=
  set_blc_status (<[Z.to_nat i := v]> (blc_status_ s)) s.

(** ** The transport *)

(** What a blocking transaction ([I2CTxThenRx] followed by
    [I2CWaitUntilCompletion]) leaves behind: the flag [I2CError] reports and
    the contents of the receive buffer.  After a failed transaction the buffer
    holds whatever the transport left there. *)
Record I2CResult : Type := mkI2CResult {
  i2c_error : bool;
  i2c_rx : BLCStatus
}.

(** One discovery pass sees one outcome per bus address. *)
Definition I2CBus : Type := Z -> I2CResult.

(** The bus address of a slot, [MOTORS_BASE_ADDRESS + (i << 1)]. *)
Definition slot_address (i : Z) : Z := MOTORS_BASE_ADDRESS + Z.shiftl i 1.

(** Whether the controller in slot [i] answers, and the status code it sends. *)
Definition responds (bus : I2CBus) (i : Z) : bool :=
  negb (i2c_error (bus (slot_address i))).
Definition reported (bus : I2CBus) (i : Z) : Z :=
  status_code (i2c_rx (bus (slot_address i))).

(** ** Accessors *)

Definition BLCErrorBitfield (s : State) : Z := blc_error_bitfield_ s.

(** A consumer's test [BLCErrorBitfield() & mask]. *)
Definition error_set (s : State) (mask : Z) : bool :=
  nonzero (Z.land (BLCErrorBitfield s) mask).

(** ** SetMotorSetpoint *)

Definition SetMotorSetpoint (address setpoint : Z) (s : State) : State :=
  if MOTORS_MAX <=? address then s
  else
    let lo := Z.land (u8 setpoint) 0x7 in
    let hi := u8 (Z.shiftr setpoint 3) in
    let s1 :=
      set_setpoints
        (alter (fun sp => mkMotorSetpoint (bits_11_to_3 sp) lo)
               (Z.to_nat address) (setpoints_ s)) s in
    set_setpoints
      (alter (fun sp => mkMotorSetpoint hi (bits_2_to_0 sp))
             (Z.to_nat address) (setpoints_ s1)) s1.

(** The value a controller reassembles from the two bytes: the low three bits
    of [bits_2_to_0] under the other byte shifted left by three. *)
Definition decode_setpoint (sp : MotorSetpoint) : Z :=
  Z.land (bits_2_to_0 sp) 0x7 + Z.shiftl (bits_11_to_3 sp) 3.

(** ** DetectMotors *)

(** The locals of [DetectMotors] that live across the loop. *)
Record DetectLocals : Type := mkDetectLocals {
  motors : Z;
  blc_status_code : Z
}.

(** The mask of the [n] lowest bits, [(1 << n) - 1].  The expression is
    computed in [int]; the model takes the mathematical value, which is what C
    gives as long as [1 << n] fits an [int]. *)
Definition low_mask (n : Z) : Z := Z.shiftl 1 n - 1.

(** The fall-through cascade of the [switch]: each case runs its own
    statement and then those of the cases below it. *)
Definition case_V2_READY (s : State) : State :=
  set_setpoint_length sizeof_uint16_t (or_feature BLC_FEATURE_EXTENDED_STATUS s).
Definition case_V3_READY (s : State) : State :=
  case_V2_READY (or_feature BLC_FEATURE_V3 s).
Definition case_V3_FAST_READY (s : State) : State :=
  case_V3_READY (or_feature BLC_FEATURE_20KHz s).

Definition DetectMotors_switch (code : Z) (s : State) : State :=
  if code =? BLC_STATUS_V3_FAST_READY then case_V3_FAST_READY s
  else if code =? BLC_STATUS_V3_READY then case_V3_READY s
  else if code =? BLC_STATUS_V2_READY then case_V2_READY s
  else s.

Section Motors.

(** The error bits of [motors.h].  The header is not part of the sources, so
    the three masks are left open. *)
Variables BLC_ERROR_INCONSISTENT_SETTINGS
          BLC_ERROR_MISSING_MOTOR
          BLC_ERROR_EXTRA_MOTOR : Z.

(** One turn of the [for] loop, for slot [i]. *)
Definition DetectMotors_probe (bus : I2CBus) (acc : DetectLocals * State) (i : Z)
  : DetectLocals * State :=
  let '(l, s) := acc in
  let r := bus (slot_address i) in
  let s := store_blc_status i (i2c_rx r) s in
  if negb (i2c_error r) then
    let l := mkDetectLocals (u8 (Z.lor (motors l) (Z.shiftl 1 i)))
                            (blc_status_code l) in
    if blc_status_code l =? BLC_STATUS_UNKNOWN then
      (mkDetectLocals (motors l) (status_code (blc_status_ s !!! Z.to_nat i)), s)
    else if negb (status_code (blc_status_ s !!! Z.to_nat i) =? blc_status_code l)
    then (l, or_error BLC_ERROR_INCONSISTENT_SETTINGS s)
    else (l, s)
  else (l, s).

(** The loop over a run of slots; [DetectMotors] runs it over all [MOTORS_MAX]
    slots in ascending order, starting with no motor seen and no status code. *)
Definition DetectMotors_scan (bus : I2CBus) (slots : list Z)
    (acc : DetectLocals * State) : DetectLocals * State :=
  fold_left (DetectMotors_probe bus) slots acc.

Definition DetectMotors_loop (bus : I2CBus) (s : State) : DetectLocals * State :=
  DetectMotors_scan bus (seqZ 0 MOTORS_MAX)
                    (mkDetectLocals 0 BLC_STATUS_UNKNOWN, s).

(** The comparison of the motors seen with the number the EEPROM expects. *)
Definition DetectMotors_count (seen : Z) (eeprom_n_motors : Z) (s : State) : State :=
  let s := set_n_motors eeprom_n_motors s in
  let s :=
    if nonzero (Z.land (low_mask (n_motors_ s)) (lnot seen))
    then or_error BLC_ERROR_MISSING_MOTOR s else s in
  if nonzero (Z.land seen (lnot (low_mask (n_motors_ s))))
  then or_error BLC_ERROR_EXTRA_MOTOR s else s.

Definition DetectMotors (bus : I2CBus) (eeprom_n_motors : Z) (s : State) : State :=
  let '(l, s) := DetectMotors_loop bus s in
  let s := DetectMotors_switch (blc_status_code l) s in
  DetectMotors_count (motors l) eeprom_n_motors s.

(** The status code the loop ends with, against which the features are read. *)
Definition reference_status_code (bus : I2CBus) (s : State) : Z :=
  blc_status_code (fst (DetectMotors_loop bus s)).

(** The bitfield of the motors the loop has seen. *)
Definition motors_present (bus : I2CBus) (s : State) : Z :=
  motors (fst (DetectMotors_loop bus s)).

(** ** The transmission chain *)

(** A request handed to [I2CTxThenRxThenCallback]: the bus address, the entry
    of [setpoints_] given as transmit buffer with its length, the entry of
    [blc_status_] given as receive buffer with its length.  The callback is
    always [TxNextMotorSetpoint]. *)
Record Transaction : Type := mkTransaction {
  tx_address : Z;
  tx_slot : Z;
  tx_length : Z;
  rx_slot : Z;
  rx_length : Z
}.

(** The module together with the transport: the transactions handed over and
    not yet completed, the record of every transaction handed over, oldest
    first, and the answers the transport has written past the end of
    [blc_status_], each with the slot index it was written for.  The module's
    other variables are declared right behind that array, so such a write
    lands on some of them; which ones is a matter of memory layout that the
    model does not have.  Once [overrun] is not empty, [mem] no longer stands
    for the memory of the program. *)
Record System : Type := mkSystem {
  mem : State;
  in_flight : list Transaction;
  issued : list Transaction;
  overrun : list (Z * BLCStatus)
}.

Definition init_system : System := mkSystem init_state [] [] [].

Definition with_mem (f : State -> State) (sys : System) : System :=
  mkSystem (f (mem sys)) (in_flight sys) (issued sys) (overrun sys).

(** The request [TxMotorSetpoint address] makes when the setpoints are [len]
    bytes long. *)
Definition request (len address : Z) : Transaction :=
  mkTransaction (MOTORS_BASE_ADDRESS + Z.shiftl address 1)
                address len address sizeof_BLCStatus.

Definition TxMotorSetpoint (address : Z) (sys : System) : System :=
  let t := request (setpoint_length_ (mem sys)) address in
  mkSystem (mem sys) (in_flight sys ++ [t]) (issued sys ++ [t]) (overrun sys).

Definition TxMotorSetpoints (sys : System) : System :=
  let sys := with_mem (fun s => set_comms_in_progress (u8 (n_motors_ s - 1)) s) sys in
  TxMotorSetpoint (comms_in_progress_ (mem sys)) sys.

(** [if (comms_in_progress_--) TxMotorSetpoint(comms_in_progress_);] the test
    reads the value before the decrement, the call the value after it. *)
Definition TxNextMotorSetpoint (sys : System) : System :=
  let before := comms_in_progress_ (mem sys) in
  let sys := with_mem (set_comms_in_progress (u8 (before - 1))) sys in
  if nonzero before then TxMotorSetpoint (comms_in_progress_ (mem sys)) sys
  else sys.

(** Whether [blc_status_[slot]] is an entry of the array. *)
Definition inside_blc_status (slot : Z) : bool :=
  (0 <=? slot) && (slot <? MOTORS_MAX).

(** The transport completes the oldest transaction in flight: the answer is
    written to the receive buffer and the callback runs.  A receive buffer
    that is an entry of [blc_status_] takes the answer.  A receive buffer past
    the end of the array does not exist: the answer is written behind the
    array, and the model records it in [overrun] instead of placing it.  With
    nothing in flight nothing happens. *)
Definition I2CComplete (answer : BLCStatus) (sys : System) : System :=
  match in_flight sys with
  | [] => sys
  | t :: rest =>
      TxNextMotorSetpoint
        (if inside_blc_status (rx_slot t)
         then mkSystem (store_blc_status (rx_slot t) answer (mem sys)) rest
                       (issued sys) (overrun sys)
         else mkSystem (mem sys) rest (issued sys)
                       (overrun sys ++ [(rx_slot t, answer)]))
  end.

(** The transport completes one transaction per answer, in order. *)
Definition completions (answers : list BLCStatus) (sys : System) : System :=
  fold_left (fun sys a => I2CComplete a sys) answers sys.

(** The slot indices [n - 1, n - 2, ..., 0]. *)
Fixpoint downto (n : nat) : list Z :=
  match n with
  | O => []
  | S m => Z.of_nat m :: downto m
  end.

(** A transaction whose buffers lie inside the two arrays. *)
Definition in_bounds (t : Transaction) : Prop :=
  0 <= tx_slot t < MOTORS_MAX /\ 0 <= rx_slot t < MOTORS_MAX.

(** ** The module at work *)

(** What can happen to the module: a call of one of its public functions, or
    the transport completing a transaction and running the callback. *)
Inductive Op : Type :=
  | CallDetectMotors (bus : I2CBus) (eeprom_n_motors : Z)
  | CallSetMotorSetpoint (address setpoint : Z)
  | CallTxMotorSetpoints
  | CallBLCErrorBitfield
  | Completion (answer : BLCStatus).

Definition step (sys : System) (op : Op) : System :=
  match op with
  | CallDetectMotors bus n => with_mem (DetectMotors bus n) sys
  | CallSetMotorSetpoint address setpoint =>
      with_mem (SetMotorSetpoint address setpoint) sys
  | CallTxMotorSetpoints => TxMotorSetpoints sys
  | CallBLCErrorBitfield => sys
  | Completion answer => I2CComplete answer sys
  end.

Definition run (ops : list Op) (sys : System) : System := fold_left step ops sys.

(** ** Vocabulary of the statements about discovery *)

(** Slot [i] is the first one that answers with a status code other than
    [BLC_STATUS_UNKNOWN]. *)
Definition first_coded (bus : I2CBus) (i : Z) : Prop :=
  (0 <= i < MOTORS_MAX) /\
  (responds bus i = true) /\
  (reported bus i <> BLC_STATUS_UNKNOWN) /\
  (forall j, 0 <= j < i -> responds bus j = true ->
             reported bus j = BLC_STATUS_UNKNOWN).

(** Slot [i] is the first one that answers at all. *)
Definition first_responder (bus : I2CBus) (i : Z) : Prop :=
  (0 <= i < MOTORS_MAX) /\
  (responds bus i = true) /\
  (forall j, 0 <= j < i -> responds bus j = false).

(** Every slot that answers sends the same status code. *)
Definition same_codes (bus : I2CBus) : Prop :=
  forall i j, 0 <= i < MOTORS_MAX -> 0 <= j < MOTORS_MAX ->
    responds bus i = true -> responds bus j = true ->
    reported bus i = reported bus j.

(** A slot that answers after a slot that sent a status code other than
    [BLC_STATUS_UNKNOWN] sends that same code. *)
Definition agree_after_first (bus : I2CBus) (k : Z) : Prop :=
  forall i j, 0 <= i -> i < j -> j < k ->
    responds bus i = true -> responds bus j = true ->
    reported bus i <> BLC_STATUS_UNKNOWN ->
    reported bus j = reported bus i.

(** A bus described slot by slot, for concrete runs: slot [i] behaves as the
    [i]-th entry says, and a slot past the end of the list does not answer. *)
Definition answering (code : Z) : I2CResult :=
  mkI2CResult false (mkBLCStatus 0 code 0 0 0 0 0 0 0).
Definition silent : I2CResult := mkI2CResult true zero_status.
Definition bus_of (slots : list I2CResult) : I2CBus :=
  fun address =>
    default silent (slots !! Z.to_nat (Z.shiftr (address - MOTORS_BASE_ADDRESS) 1)).

(** ** Vocabulary of the proofs *)

(** What a turn leaves alone. *)
Record same_frame (s s' : State) : Prop := {
  frame_setpoints : setpoints_ s' = setpoints_ s;
  frame_feature : blc_feature_bitfield_ s' = blc_feature_bitfield_ s;
  frame_n_motors : n_motors_ s' = n_motors_ s;
  frame_length : setpoint_length_ s' = setpoint_length_ s;
  frame_comms : comms_in_progress_ s' = comms_in_progress_ s;
  frame_status_size : length (blc_status_ s') = length (blc_status_ s)
}.

(** The state after the first [k] turns of the loop. *)
Definition after (bus : I2CBus) (s : State) (k : nat) : DetectLocals * State :=
  DetectMotors_scan bus (seqZ 0 (Z.of_nat k)) (mkDetectLocals 0 BLC_STATUS_UNKNOWN, s).

(** The two tests [DetectMotors] makes on the motors seen. *)
Definition missing_test (seen n : Z) : bool :=
  nonzero (Z.land (low_mask n) (lnot seen)).
Definition extra_test (seen n : Z) : bool :=
  nonzero (Z.land seen (lnot (low_mask n))).

(** Every bit of [e] is a bit of [e']. *)
Definition bits_kept (e e' : Z) : Prop :=
  forall k, Z.testbit e k = true -> Z.testbit e' k = true.

(** From [s] to [s'] the error bitfield has stayed a byte and lost no bit. *)
Definition grows (s s' : State) : Prop :=
  is_u8 (blc_error_bitfield_ s') /\
  bits_kept (blc_error_bitfield_ s) (blc_error_bitfield_ s').

(** The chain is waiting for the transaction of slot [c]: exactly this
    transaction is in flight, the cursor names it, and [log] is what has been
    handed to the transport so far. *)
Record chain_at (len c : Z) (log : list Transaction) (sys : System) : Prop := {
  chain_in_flight : in_flight sys = [request len c];
  chain_cursor : comms_in_progress_ (mem sys) = c;
  chain_length : setpoint_length_ (mem sys) = len;
  chain_issued : issued sys = log
}.

(** Modelled from the spec: [motors.h], which gives the three error masks
    their values, is not among the sources.  The spec names the errors as
    inconsistent settings, missing motor and extra motor; the concrete runs
    further down put them on the three lowest bits in that order.  No theorem
    rests on this choice: each is stated for every triple of masks. *)
Definition sample_INCONSISTENT_SETTINGS : Z := Z.shiftl 1 0.
Definition sample_MISSING_MOTOR : Z := Z.shiftl 1 1.
Definition sample_EXTRA_MOTOR : Z := Z.shiftl 1 2.

(** Buses for concrete runs. *)
Definition one_of_two : I2CBus := bus_of [answering BLC_STATUS_V2_READY].
Definition three_for_two : I2CBus :=
  bus_of [answering BLC_STATUS_V2_READY; answering BLC_STATUS_V2_READY;
          answering BLC_STATUS_V2_READY].
Definition unknown_then_v2 : I2CBus :=
  bus_of [answering BLC_STATUS_UNKNOWN; answering BLC_STATUS_V2_READY].
Definition v2_then_unknown : I2CBus :=
  bus_of [answering BLC_STATUS_V2_READY; answering BLC_STATUS_UNKNOWN].
Definition v2_then_v3 : I2CBus :=
  bus_of [answering BLC_STATUS_V2_READY; answering BLC_STATUS_V3_READY].
Definition v3_fast : I2CBus := bus_of [answering BLC_STATUS_V3_FAST_READY].

(** ** Vocabulary of the further properties *)

(** The two bytes [SetMotorSetpoint] stores for a setpoint. *)
Definition packed (setpoint : Z) : MotorSetpoint :=
  mkMotorSetpoint (u8 (Z.shiftr setpoint 3)) (Z.land (u8 setpoint) 0x7).

(** An entry of [setpoints_] whose low field holds three bits and whose other
    field holds a byte. *)
Definition setpoint_ok (sp : MotorSetpoint) : Prop :=
  0 <= bits_2_to_0 sp < 8 /\ is_u8 (bits_11_to_3 sp).

(** The variables hold values of their C types and of the ranges the code
    gives them: arrays of [MOTORS_MAX] entries, bytes, the three feature bits,
    a setpoint length of one or two bytes. *)
Record State_ok (s : State) : Prop := {
  ok_setpoints_size : length (setpoints_ s) = Z.to_nat MOTORS_MAX;
  ok_status_size : length (blc_status_ s) = Z.to_nat MOTORS_MAX;
  ok_setpoints : Forall setpoint_ok (setpoints_ s);
  ok_error : is_u8 (blc_error_bitfield_ s);
  ok_feature : 0 <= blc_feature_bitfield_ s < 8;
  ok_n_motors : is_u8 (n_motors_ s);
  ok_length : setpoint_length_ s = sizeof_uint8_t \/
              setpoint_length_ s = sizeof_uint16_t;
  ok_comms : is_u8 (comms_in_progress_ s)
}.

(** [eeprom_read_byte] returns a byte. *)
Definition Op_ok (op : Op) : Prop :=
  match op with
  | CallDetectMotors _ eeprom_n_motors => is_u8 eeprom_n_motors
  | _ => True
  end.

(** What neither [TxMotorSetpoints] nor a completion touches. *)
Record untouched_by_transmission (s s' : State) : Prop := {
  tx_keeps_setpoints : setpoints_ s' = setpoints_ s;
  tx_keeps_error : blc_error_bitfield_ s' = blc_error_bitfield_ s;
  tx_keeps_feature : blc_feature_bitfield_ s' = blc_feature_bitfield_ s;
  tx_keeps_n_motors : n_motors_ s' = n_motors_ s;
  tx_keeps_length : setpoint_length_ s' = setpoint_length_ s;
  tx_keeps_status_size : length (blc_status_ s') = length (blc_status_ s)
}.

(** Several [x |= mask] in a row on a byte variable. *)
Definition ors (masks : list Z) (e : Z) : Z :=
  fold_left (fun e mask => u8 (Z.lor e mask)) masks e.

(** More buses and a system for concrete runs: a bus on which nothing
    answers, a bus that is [one_of_two] at the eight addresses of the slots
    and differs at address 0, and the module with three motors. *)
Definition nobody : I2CBus := bus_of [].
Definition one_of_two_elsewhere : I2CBus :=
  fun address =>
    if address =? 0 then answering BLC_STATUS_RUNNING else one_of_two address.
Definition three_motors : System := with_mem (set_n_motors 3) init_system.

(** A run that keeps to the arrays: the transport has written nothing behind
    [blc_status_] when it starts, and the transactions in flight at its start
    and all those handed to the transport by its end have their buffers
    inside the two arrays.  Of such a run [mem] is the memory of the program
    throughout; of any other run C says nothing. *)
Definition stays_inside (ops : list Op) (sys : System) : Prop :=
  overrun sys = [] /\
  Forall in_bounds (in_flight sys) /\
  Forall in_bounds (issued (run ops sys)).

(** [in_bounds] as a test, for concrete runs. *)
Definition in_boundsb (t : Transaction) : bool :=
  inside_blc_status (tx_slot t) && inside_blc_status (rx_slot t).

(** * Properties *)

(** ** Machine integers *)

Lemma u8_range (x : Z) : is_u8 (u8 x).
Proof. unfold is_u8, u8. apply Z.mod_pos_bound. lia. Qed.

Lemma u8_small (x : Z) : is_u8 x -> u8 x = x.
Proof. unfold is_u8, u8. intros H. apply Z.mod_small. exact H. Qed.

Lemma u8_testbit (x k : Z) : Z.testbit (u8 x) k = (k <? 8) && Z.testbit x k.
Proof.
  unfold u8. change 256 with (2 ^ 8).
  apply Z.testbit_mod_pow2. lia.
Qed.

Lemma is_u8_testbit_high (m k : Z) : is_u8 m -> 8 <= k -> Z.testbit m k = false.
Proof.
  intros Hm Hk. rewrite <- (u8_small m Hm), u8_testbit.
  destruct (Z.ltb_spec k 8); [lia | reflexivity].
Qed.

(** Reading the bits of [mask] after [x |= c] on a byte. *)
Lemma land_u8_lor (e c mask : Z) :
  is_u8 mask ->
  Z.land (u8 (Z.lor e c)) mask = Z.lor (Z.land e mask) (Z.land c mask).
Proof.
  intros Hm. apply Z.bits_inj'. intros k Hk.
  rewrite Z.lor_spec, !Z.land_spec, u8_testbit, Z.lor_spec.
  destruct (Z.ltb_spec k 8) as [Hlt | Hge].
  - simpl. destruct (Z.testbit e k), (Z.testbit c k), (Z.testbit mask k); reflexivity.
  - rewrite (is_u8_testbit_high mask k Hm Hge). simpl. now rewrite !andb_false_r.
Qed.

(** ** SetMotorSetpoint *)

Lemma split_11_bits (v : Z) :
  Z.land (Z.land (u8 v) 0x7) 0x7 + Z.shiftl (u8 (Z.shiftr v 3)) 3 = v mod 2048.
Proof.
  unfold u8.
  change 0x7 with (Z.ones 3).
  rewrite !Z.land_ones by lia.
  rewrite Z.shiftl_mul_pow2, Z.shiftr_div_pow2 by lia.
  change (2 ^ 3) with 8.
  rewrite Z.mod_mod by lia.
  rewrite (Z.mod_mod_divide v 256 8) by (exists 32; lia).
  change 2048 with (8 * 256).
  rewrite Z.rem_mul_r by lia.
  lia.
Qed.

Lemma SetMotorSetpoint_stored (address setpoint : Z) (s : State) :
  0 <= address < MOTORS_MAX ->
  arrays_ok s ->
  setpoints_ (SetMotorSetpoint address setpoint s) !! Z.to_nat address =
    Some (mkMotorSetpoint (u8 (Z.shiftr setpoint 3)) (Z.land (u8 setpoint) 0x7)).
Proof.
  intros Ha [Hlen _]. unfold SetMotorSetpoint.
  destruct (Z.leb_spec MOTORS_MAX address) as [Hge | _]; [lia |].
  cbn [setpoints_ set_setpoints].
  rewrite !list_lookup_alter_eq.
  destruct (lookup_lt_is_Some_2 (setpoints_ s) (Z.to_nat address)) as [sp Hsp].
  { rewrite Hlen. unfold MOTORS_MAX in *. lia. }
  rewrite Hsp. reflexivity.
Qed.

(** ** One turn of the discovery loop *)

Lemma store_blc_status_read (i : Z) (v : BLCStatus) (s : State) :
  0 <= i < MOTORS_MAX ->
  length (blc_status_ s) = Z.to_nat MOTORS_MAX ->
  blc_status_ (store_blc_status i v s) !!! Z.to_nat i = v.
Proof.
  intros Hi Hlen. unfold store_blc_status. cbn [blc_status_ set_blc_status].
  apply list_lookup_total_insert_eq. rewrite Hlen. unfold MOTORS_MAX in *. lia.
Qed.

(** The turn for slot [i], with the status code read back from the array
    replaced by the one the slot sent. *)
Lemma probe_unfold (bus : I2CBus) (l : DetectLocals) (s : State) (i : Z) :
  0 <= i < MOTORS_MAX ->
  length (blc_status_ s) = Z.to_nat MOTORS_MAX ->
  DetectMotors_probe bus (l, s) i =
    let s1 := store_blc_status i (i2c_rx (bus (slot_address i))) s in
    if responds bus i then
      let seen := u8 (Z.lor (motors l) (Z.shiftl 1 i)) in
      if blc_status_code l =? BLC_STATUS_UNKNOWN
      then (mkDetectLocals seen (reported bus i), s1)
      else if reported bus i =? blc_status_code l
           then (mkDetectLocals seen (blc_status_code l), s1)
           else (mkDetectLocals seen (blc_status_code l),
                 or_error BLC_ERROR_INCONSISTENT_SETTINGS s1)
    else (l, s1).
Proof.
  intros Hi Hlen. unfold DetectMotors_probe, responds, reported.
  destruct (i2c_error (bus (slot_address i))); cbn [negb]; [reflexivity |].
  cbn zeta. cbn [motors blc_status_code].
  rewrite (store_blc_status_read i _ s Hi Hlen).
  destruct (blc_status_code l =? BLC_STATUS_UNKNOWN); [reflexivity |].
  destruct (status_code (i2c_rx (bus (slot_address i))) =? blc_status_code l);
    reflexivity.
Qed.

Lemma same_frame_refl (s : State) : same_frame s s.
Proof. now constructor. Qed.

Lemma same_frame_trans (s1 s2 s3 : State) :
  same_frame s1 s2 -> same_frame s2 s3 -> same_frame s1 s3.
Proof. intros [] []. constructor; congruence. Qed.

Lemma probe_frame (bus : I2CBus) (l : DetectLocals) (s : State) (i : Z) :
  same_frame s (snd (DetectMotors_probe bus (l, s) i)).
Proof.
  unfold DetectMotors_probe.
  destruct (negb (i2c_error (bus (slot_address i)))); cbn zeta;
    [destruct (_ =? BLC_STATUS_UNKNOWN); [| destruct (negb _)] |];
    constructor; cbn; try reflexivity; apply length_insert.
Qed.

Lemma scan_frame (bus : I2CBus) (slots : list Z) (acc : DetectLocals * State) :
  same_frame (snd acc) (snd (DetectMotors_scan bus slots acc)).
Proof.
  revert acc. induction slots as [| i slots IH]; intros [l s].
  - apply same_frame_refl.
  - unfold DetectMotors_scan. cbn [fold_left].
    eapply same_frame_trans; [apply (probe_frame bus l s i) |].
    destruct (DetectMotors_probe bus (l, s) i) as [l' s']. apply (IH (l', s')).
Qed.

Lemma after_S (bus : I2CBus) (s : State) (k : nat) :
  after bus s (S k) = DetectMotors_probe bus (after bus s k) (Z.of_nat k).
Proof.
  unfold after, DetectMotors_scan.
  rewrite seqZ_S, fold_left_app. reflexivity.
Qed.

Lemma after_all (bus : I2CBus) (s : State) :
  DetectMotors_loop bus s = after bus s 8.
Proof. reflexivity. Qed.

Lemma after_status_size (bus : I2CBus) (s : State) (k : nat) :
  length (blc_status_ s) = Z.to_nat MOTORS_MAX ->
  length (blc_status_ (snd (after bus s k))) = Z.to_nat MOTORS_MAX.
Proof.
  intros H. rewrite <- H.
  apply (frame_status_size _ _ (scan_frame bus _ (_, s))).
Qed.

(** The turn for slot [k] when the loop has reached it. *)
Lemma after_step (bus : I2CBus) (s : State) (k : nat) :
  (k < 8)%nat ->
  length (blc_status_ s) = Z.to_nat MOTORS_MAX ->
  after bus s (S k) =
    let '(l, s0) := after bus s k in
    let s1 := store_blc_status (Z.of_nat k) (i2c_rx (bus (slot_address (Z.of_nat k)))) s0 in
    if responds bus (Z.of_nat k) then
      let seen := u8 (Z.lor (motors l) (Z.shiftl 1 (Z.of_nat k))) in
      if blc_status_code l =? BLC_STATUS_UNKNOWN
      then (mkDetectLocals seen (reported bus (Z.of_nat k)), s1)
      else if reported bus (Z.of_nat k) =? blc_status_code l
           then (mkDetectLocals seen (blc_status_code l), s1)
           else (mkDetectLocals seen (blc_status_code l),
                 or_error BLC_ERROR_INCONSISTENT_SETTINGS s1)
    else (l, s1).
Proof.
  intros Hk Hlen. rewrite after_S.
  pose proof (after_status_size bus s k Hlen) as Hsz.
  destruct (after bus s k) as [l s0]. cbn [snd] in Hsz.
  apply probe_unfold; [unfold MOTORS_MAX; lia | exact Hsz].
Qed.

(** ** What the loop has computed after [k] turns *)

Lemma testbit_shiftl_1 (i j : Z) : 0 <= i -> Z.testbit (Z.shiftl 1 i) j = (i =? j).
Proof.
  intros Hi. rewrite Z.shiftl_1_l. apply Z.pow2_bits_eqb. exact Hi.
Qed.

(** The bitfield [motors] has bit [j] set exactly for the slots below [k] that
    answered. *)
Lemma after_motors (bus : I2CBus) (s : State) (k : nat) (j : Z) :
  (k <= 8)%nat ->
  length (blc_status_ s) = Z.to_nat MOTORS_MAX ->
  Z.testbit (motors (fst (after bus s k))) j =
    (0 <=? j) && (j <? Z.of_nat k) && responds bus j.
Proof.
  intros Hk Hlen. induction k as [| k IH].
  - cbn [after DetectMotors_scan seqZ fold_left fst motors].
    change (Z.of_nat 0) with 0. cbn. rewrite Z.bits_0.
    destruct (Z.leb_spec 0 j), (Z.ltb_spec j 0); try lia; reflexivity.
  - specialize (IH ltac:(lia)).
    rewrite after_step by (assumption || lia).
    destruct (after bus s k) as [l s0]. cbn [fst] in IH. cbn zeta.
    assert (Hbit : Z.testbit (u8 (Z.lor (motors l) (Z.shiftl 1 (Z.of_nat k)))) j =
                   (0 <=? j) && (j <? Z.of_nat (S k)) &&
                   (if Z.of_nat k =? j then true else responds bus j)).
    { rewrite u8_testbit, Z.lor_spec, IH, testbit_shiftl_1 by lia.
      destruct (Z.eqb_spec (Z.of_nat k) j) as [<- | Hne].
      - rewrite orb_true_r.
        destruct (Z.ltb_spec (Z.of_nat k) 8), (Z.leb_spec 0 (Z.of_nat k)),
                 (Z.ltb_spec (Z.of_nat k) (Z.of_nat (S k))); try lia; reflexivity.
      - rewrite orb_false_r.
        destruct (Z.ltb_spec j 8), (Z.leb_spec 0 j), (Z.ltb_spec j (Z.of_nat k)),
                 (Z.ltb_spec j (Z.of_nat (S k))); try lia; reflexivity. }
    destruct (responds bus (Z.of_nat k)) eqn:Hr.
    + assert (Hgoal : Z.testbit (u8 (Z.lor (motors l) (Z.shiftl 1 (Z.of_nat k)))) j =
                      (0 <=? j) && (j <? Z.of_nat (S k)) && responds bus j).
      { rewrite Hbit. destruct (Z.eqb_spec (Z.of_nat k) j) as [<- | _];
          [rewrite Hr |]; reflexivity. }
      destruct (blc_status_code l =? BLC_STATUS_UNKNOWN);
        [| destruct (reported bus (Z.of_nat k) =? blc_status_code l)];
        cbn [fst motors]; exact Hgoal.
    + cbn [fst]. rewrite IH.
      destruct (Z.leb_spec 0 j), (Z.ltb_spec j (Z.of_nat k)),
               (Z.ltb_spec j (Z.of_nat (S k))); try lia; cbn; try reflexivity.
      assert (j = Z.of_nat k) as -> by lia. now rewrite Hr.
Qed.

(** The status code the loop holds: still [BLC_STATUS_UNKNOWN] while no slot
    has sent anything else, and from then on the code of the first slot that
    did. *)
Lemma after_code (bus : I2CBus) (s : State) (k : nat) :
  (k <= 8)%nat ->
  length (blc_status_ s) = Z.to_nat MOTORS_MAX ->
  (blc_status_code (fst (after bus s k)) = BLC_STATUS_UNKNOWN /\
   forall j, 0 <= j < Z.of_nat k -> responds bus j = true ->
             reported bus j = BLC_STATUS_UNKNOWN)
  \/
  (exists i, i < Z.of_nat k /\ first_coded bus i /\
             blc_status_code (fst (after bus s k)) = reported bus i).
Proof.
  intros Hk Hlen. induction k as [| k IH].
  - left. split; [reflexivity | intros j Hj; lia].
  - specialize (IH ltac:(lia)).
    rewrite after_step by (assumption || lia).
    destruct (after bus s k) as [l s0]. cbn [fst] in IH. cbn zeta.
    destruct (responds bus (Z.of_nat k)) eqn:Hr.
    + destruct IH as [[Hc Hzero] | (i & Hi & Hfirst & Hc)].
      * rewrite Hc, Z.eqb_refl. cbn [fst blc_status_code].
        destruct (Z.eq_dec (reported bus (Z.of_nat k)) BLC_STATUS_UNKNOWN) as [Hz | Hnz].
        -- left. split; [exact Hz |]. intros j Hj Hrj.
           destruct (Z.eq_dec j (Z.of_nat k)) as [-> | Hne]; [exact Hz |].
           apply Hzero; [lia | exact Hrj].
        -- right. exists (Z.of_nat k). split; [lia |]. split; [| reflexivity].
           repeat split; try (unfold MOTORS_MAX; lia); assumption.
      * right. exists i. split; [lia |]. split; [exact Hfirst |].
        assert (Hcode : blc_status_code l <> BLC_STATUS_UNKNOWN).
        { rewrite Hc. apply Hfirst. }
        apply Z.eqb_neq in Hcode. rewrite Hcode.
        destruct (reported bus (Z.of_nat k) =? blc_status_code l);
          cbn [fst blc_status_code]; exact Hc.
    + cbn [fst]. destruct IH as [[Hc Hzero] | (i & Hi & Hfirst & Hc)].
      * left. split; [exact Hc |]. intros j Hj Hrj.
        destruct (Z.eq_dec j (Z.of_nat k)) as [-> | Hne]; [congruence |].
        apply Hzero; [lia | exact Hrj].
      * right. exists i. split; [lia |]. split; assumption.
Qed.

Lemma first_coded_unique (bus : I2CBus) (i i' : Z) :
  first_coded bus i -> first_coded bus i' -> i = i'.
Proof.
  intros (Hi & Hr & Hnz & Hbefore) (Hi' & Hr' & Hnz' & Hbefore').
  destruct (Z.lt_trichotomy i i') as [Hlt | [Heq | Hgt]]; [| exact Heq |].
  - exfalso. apply Hnz. apply Hbefore'; [lia | exact Hr].
  - exfalso. apply Hnz'. apply Hbefore; [lia | exact Hr'].
Qed.

(** Once the first coded slot is behind, the loop holds its code. *)
Lemma after_code_first (bus : I2CBus) (s : State) (k : nat) (i : Z) :
  (k <= 8)%nat ->
  length (blc_status_ s) = Z.to_nat MOTORS_MAX ->
  first_coded bus i -> i < Z.of_nat k ->
  blc_status_code (fst (after bus s k)) = reported bus i.
Proof.
  intros Hk Hlen Hfirst Hik.
  destruct (after_code bus s k Hk Hlen) as [[_ Hzero] | (i' & _ & Hfirst' & Hc)].
  - exfalso. destruct Hfirst as (Hi & Hr & Hnz & _).
    apply Hnz. apply Hzero; [lia | exact Hr].
  - rewrite Hc. now rewrite (first_coded_unique bus i i' Hfirst Hfirst').
Qed.

(** With no coded slot the loop ends without a status code. *)
Lemma after_code_none (bus : I2CBus) (s : State) (k : nat) :
  (k <= 8)%nat ->
  length (blc_status_ s) = Z.to_nat MOTORS_MAX ->
  (forall j, 0 <= j < Z.of_nat k -> responds bus j = true ->
             reported bus j = BLC_STATUS_UNKNOWN) ->
  blc_status_code (fst (after bus s k)) = BLC_STATUS_UNKNOWN.
Proof.
  intros Hk Hlen Hzero.
  destruct (after_code bus s k Hk Hlen) as [[Hc _] | (i & Hik & Hfirst & Hc)].
  - exact Hc.
  - destruct Hfirst as (Hi & Hr & Hnz & _).
    exfalso. apply Hnz. apply Hzero; [lia | exact Hr].
Qed.

(** ** The error bitfield under [|=] *)

Lemma nonzero_lor (a b : Z) : nonzero (Z.lor a b) = nonzero a || nonzero b.
Proof.
  unfold nonzero.
  destruct (Z.eqb_spec (Z.lor a b) 0) as [H | H].
  - apply Z.lor_eq_0_iff in H as [-> ->]. reflexivity.
  - destruct (Z.eqb_spec a 0) as [-> | Ha]; [| reflexivity].
    destruct (Z.eqb_spec b 0) as [-> | Hb]; [| reflexivity].
    now rewrite Z.lor_0_l in H.
Qed.

(** After [blc_error_bitfield_ |= c] a byte mask finds what it found before,
    and what it shares with [c]. *)
Lemma error_set_or_error (c mask : Z) (s : State) :
  is_u8 mask ->
  error_set (or_error c s) mask = error_set s mask || nonzero (Z.land c mask).
Proof.
  intros Hm. unfold error_set, BLCErrorBitfield, or_error.
  cbn [blc_error_bitfield_ set_blc_error_bitfield].
  now rewrite land_u8_lor, nonzero_lor.
Qed.

Lemma error_set_or_error_same (mask : Z) (s : State) :
  is_u8 mask -> mask <> 0 -> error_set (or_error mask s) mask = true.
Proof.
  intros Hm Hnz. rewrite error_set_or_error by exact Hm.
  rewrite Z.land_diag. unfold nonzero.
  apply Z.eqb_neq in Hnz. rewrite Hnz. apply orb_true_r.
Qed.

Lemma error_set_or_error_keeps (c mask : Z) (s : State) :
  is_u8 mask -> error_set s mask = true -> error_set (or_error c s) mask = true.
Proof.
  intros Hm Hs. rewrite error_set_or_error by exact Hm. now rewrite Hs.
Qed.

Lemma error_set_or_error_disjoint (c mask : Z) (s : State) :
  is_u8 mask -> Z.land c mask = 0 ->
  error_set (or_error c s) mask = error_set s mask.
Proof.
  intros Hm Hc. rewrite error_set_or_error by exact Hm.
  rewrite Hc. apply orb_false_r.
Qed.

Lemma error_set_store_blc_status (i : Z) (v : BLCStatus) (s : State) (mask : Z) :
  error_set (store_blc_status i v s) mask = error_set s mask.
Proof. reflexivity. Qed.

(** ** The error bitfield across the discovery loop *)

Lemma agree_after_first_fewer (bus : I2CBus) (k k' : Z) :
  k' <= k -> agree_after_first bus k -> agree_after_first bus k'.
Proof.
  intros Hle H i j Hi Hij Hj. apply H; lia.
Qed.

(** While the slots agree the loop does not touch the error bitfield. *)
Lemma after_error_unchanged (bus : I2CBus) (s : State) (k : nat) :
  (k <= 8)%nat ->
  length (blc_status_ s) = Z.to_nat MOTORS_MAX ->
  agree_after_first bus (Z.of_nat k) ->
  blc_error_bitfield_ (snd (after bus s k)) = blc_error_bitfield_ s.
Proof.
  intros Hk Hlen. induction k as [| k IH]; intros Hagree.
  - reflexivity.
  - specialize (IH ltac:(lia)
                   (agree_after_first_fewer bus (Z.of_nat (S k)) (Z.of_nat k)
                                            ltac:(lia) Hagree)).
    pose proof (after_code bus s k ltac:(lia) Hlen) as Hcode.
    rewrite after_step by (assumption || lia).
    destruct (after bus s k) as [l s0]. cbn [fst snd] in *. cbn zeta.
    destruct (responds bus (Z.of_nat k)) eqn:Hr; [| exact IH].
    destruct (blc_status_code l =? BLC_STATUS_UNKNOWN) eqn:Hunk; [exact IH |].
    destruct Hcode as [[Hc _] | (i & Hik & Hfirst & Hc)].
    + rewrite Hc in Hunk. discriminate.
    + destruct Hfirst as (Hi & Hri & Hnz & _).
      rewrite Hc, (Hagree i (Z.of_nat k)), Z.eqb_refl by (assumption || lia).
      exact IH.
Qed.

(** A slot that answers after the first coded slot with another code raises
    the error, and the rest of the loop keeps it. *)
Lemma after_error_set (bus : I2CBus) (s : State) (k : nat) (i j : Z) :
  (k <= 8)%nat ->
  length (blc_status_ s) = Z.to_nat MOTORS_MAX ->
  is_u8 BLC_ERROR_INCONSISTENT_SETTINGS ->
  BLC_ERROR_INCONSISTENT_SETTINGS <> 0 ->
  first_coded bus i -> i < j -> j < Z.of_nat k ->
  responds bus j = true -> reported bus j <> reported bus i ->
  error_set (snd (after bus s k)) BLC_ERROR_INCONSISTENT_SETTINGS = true.
Proof.
  intros Hk Hlen Hbyte Hmask Hfirst Hij Hjk Hrj Hdiff.
  pose proof (proj1 Hfirst) as Hi.
  induction k as [| k IH]; [lia |].
  rewrite after_step by (assumption || lia).
  destruct (Z.eq_dec j (Z.of_nat k)) as [-> | Hne].
  - pose proof (after_code_first bus s k i ltac:(lia) Hlen Hfirst Hij) as Hc.
    destruct (after bus s k) as [l s0]. cbn [fst] in Hc. cbn zeta.
    rewrite Hrj, Hc.
    destruct Hfirst as (_ & _ & Hnz & _).
    apply Z.eqb_neq in Hnz. rewrite Hnz.
    apply Z.eqb_neq in Hdiff. rewrite Hdiff. cbn [snd].
    now apply error_set_or_error_same.
  - specialize (IH ltac:(lia) ltac:(lia)).
    destruct (after bus s k) as [l s0]. cbn [snd] in IH. cbn zeta.
    destruct (responds bus (Z.of_nat k));
      [destruct (blc_status_code l =? BLC_STATUS_UNKNOWN);
       [| destruct (reported bus (Z.of_nat k) =? blc_status_code l)] |];
      cbn [snd]; try exact IH.
    apply error_set_or_error_keeps; [exact Hbyte | exact IH].
Qed.

(** ** The error bitfield across [DetectMotors] *)

Lemma DetectMotors_switch_error (code : Z) (s : State) :
  blc_error_bitfield_ (DetectMotors_switch code s) = blc_error_bitfield_ s.
Proof.
  unfold DetectMotors_switch.
  destruct (code =? BLC_STATUS_V3_FAST_READY); [reflexivity |].
  destruct (code =? BLC_STATUS_V3_READY); [reflexivity |].
  destruct (code =? BLC_STATUS_V2_READY); reflexivity.
Qed.

Lemma DetectMotors_count_error_set (seen n mask : Z) (s : State) :
  is_u8 mask ->
  error_set (DetectMotors_count seen n s) mask =
    error_set s mask
    || missing_test seen n && nonzero (Z.land BLC_ERROR_MISSING_MOTOR mask)
    || extra_test seen n && nonzero (Z.land BLC_ERROR_EXTRA_MOTOR mask).
Proof.
  intros Hm. unfold DetectMotors_count, missing_test, extra_test. cbn zeta.
  cbn [n_motors_ set_n_motors].
  destruct (nonzero (Z.land (low_mask n) (lnot seen)));
    cbn [n_motors_ set_n_motors or_error set_blc_error_bitfield];
    destruct (nonzero (Z.land seen (lnot (low_mask n))));
    rewrite ?error_set_or_error by exact Hm;
    cbn [andb]; rewrite ?orb_false_r; reflexivity.
Qed.

Lemma DetectMotors_error_set (bus : I2CBus) (n mask : Z) (s : State) :
  is_u8 mask ->
  error_set (DetectMotors bus n s) mask =
    error_set (snd (DetectMotors_loop bus s)) mask
    || missing_test (motors_present bus s) n
       && nonzero (Z.land BLC_ERROR_MISSING_MOTOR mask)
    || extra_test (motors_present bus s) n
       && nonzero (Z.land BLC_ERROR_EXTRA_MOTOR mask).
Proof.
  intros Hm. unfold DetectMotors, motors_present.
  destruct (DetectMotors_loop bus s) as [l s1]. cbn [fst snd].
  rewrite DetectMotors_count_error_set by exact Hm.
  unfold error_set at 1, BLCErrorBitfield.
  now rewrite DetectMotors_switch_error.
Qed.

(** What the two tests amount to: with [!] in place of [~] the first one
    fires only when no motor at all was seen, the second only when no motor
    is expected. *)
Lemma missing_test_spec (seen n : Z) :
  0 <= n -> missing_test seen n = (seen =? 0) && (0 <? n).
Proof.
  intros Hn. unfold missing_test, lnot, low_mask, nonzero.
  destruct (seen =? 0); cbn [andb].
  - rewrite Z.shiftl_1_l.
    replace (Z.land (2 ^ n - 1) 1) with ((2 ^ n - 1) mod 2)
      by (symmetry; apply (Z.land_ones (2 ^ n - 1) 1); lia).
    destruct (Z.ltb_spec 0 n) as [Hpos | Hzero].
    + replace (2 ^ n) with (2 * 2 ^ (n - 1))
        by (rewrite <- Z.pow_succ_r by lia; f_equal; lia).
      replace (2 * 2 ^ (n - 1) - 1) with (1 + (2 ^ (n - 1) - 1) * 2) by lia.
      rewrite Z.mod_add by lia. reflexivity.
    + assert (n = 0) as -> by lia. reflexivity.
  - now rewrite Z.land_0_r.
Qed.

Lemma extra_test_spec (seen n : Z) :
  0 <= n -> extra_test seen n = (n =? 0) && Z.odd seen.
Proof.
  intros Hn. unfold extra_test, lnot, low_mask, nonzero.
  rewrite Z.shiftl_1_l.
  destruct (Z.eqb_spec n 0) as [-> | Hnz].
  - cbn [andb]. change (2 ^ 0 - 1 =? 0) with true. cbv iota.
    replace (Z.land seen 1) with (seen mod 2)
      by (symmetry; apply (Z.land_ones seen 1); lia).
    rewrite Zmod_odd.
    destruct (Z.odd seen); reflexivity.
  - assert (H : 2 ^ n - 1 <> 0).
    { pose proof (Z.pow_gt_1 2 n ltac:(lia)) as [H _]. specialize (H ltac:(lia)). lia. }
    apply Z.eqb_neq in H. rewrite H. now rewrite Z.land_0_r.
Qed.

(** ** The features across [DetectMotors] *)

Lemma DetectMotors_count_frame (seen n : Z) (s : State) :
  blc_feature_bitfield_ (DetectMotors_count seen n s) = blc_feature_bitfield_ s /\
  setpoint_length_ (DetectMotors_count seen n s) = setpoint_length_ s.
Proof.
  unfold DetectMotors_count. cbn zeta.
  destruct (nonzero (Z.land (low_mask _) (lnot seen)));
    destruct (nonzero (Z.land seen (lnot (low_mask _)))); split; reflexivity.
Qed.

Lemma DetectMotors_features (bus : I2CBus) (n : Z) (s : State) :
  let after_switch := DetectMotors_switch (reference_status_code bus s) s in
  blc_feature_bitfield_ (DetectMotors bus n s) = blc_feature_bitfield_ after_switch /\
  setpoint_length_ (DetectMotors bus n s) = setpoint_length_ after_switch.
Proof.
  cbn zeta. unfold DetectMotors, reference_status_code.
  pose proof (scan_frame bus (seqZ 0 MOTORS_MAX)
                (mkDetectLocals 0 BLC_STATUS_UNKNOWN, s)) as F.
  fold (DetectMotors_loop bus s) in F.
  destruct (DetectMotors_loop bus s) as [l s1]. cbn [fst snd] in *.
  destruct (DetectMotors_count_frame (motors l) n
              (DetectMotors_switch (blc_status_code l) s1)) as [-> ->].
  destruct F as [_ Hfeat _ Hlen _ _].
  unfold DetectMotors_switch.
  destruct (_ =? BLC_STATUS_V3_FAST_READY);
    [| destruct (_ =? BLC_STATUS_V3_READY);
       [| destruct (_ =? BLC_STATUS_V2_READY)]];
    cbn; rewrite ?Hfeat, ?Hlen; split; reflexivity.
Qed.

(** ** Discovery: statements about the error bits *)

Lemma same_codes_agree (bus : I2CBus) :
  same_codes bus -> agree_after_first bus MOTORS_MAX.
Proof.
  intros H i j Hi Hij Hj Hri Hrj _. apply H; try assumption; lia.
Qed.

(** A pass over slots that agree leaves a mask alone that shares no bit with
    the masks for a missing and for an extra motor. *)
Lemma DetectMotors_agreeing (bus : I2CBus) (n : Z) (s : State) (mask : Z) :
  length (blc_status_ s) = Z.to_nat MOTORS_MAX ->
  is_u8 mask ->
  Z.land BLC_ERROR_MISSING_MOTOR mask = 0 ->
  Z.land BLC_ERROR_EXTRA_MOTOR mask = 0 ->
  agree_after_first bus MOTORS_MAX ->
  error_set (DetectMotors bus n s) mask = error_set s mask.
Proof.
  intros Hlen Hm Hmiss Hextra Hagree.
  rewrite DetectMotors_error_set by exact Hm.
  rewrite Hmiss, Hextra. change (nonzero 0) with false.
  rewrite !andb_false_r, !orb_false_r.
  unfold error_set, BLCErrorBitfield. rewrite after_all.
  now rewrite (after_error_unchanged bus s 8 ltac:(lia) Hlen Hagree).
Qed.

(** A slot that answers after the first coded slot with another code raises
    the error for inconsistent settings. *)
Lemma DetectMotors_differing (bus : I2CBus) (n : Z) (s : State) (i j : Z) :
  length (blc_status_ s) = Z.to_nat MOTORS_MAX ->
  is_u8 BLC_ERROR_INCONSISTENT_SETTINGS ->
  BLC_ERROR_INCONSISTENT_SETTINGS <> 0 ->
  first_coded bus i -> i < j < MOTORS_MAX ->
  responds bus j = true -> reported bus j <> reported bus i ->
  error_set (DetectMotors bus n s) BLC_ERROR_INCONSISTENT_SETTINGS = true.
Proof.
  intros Hlen Hbyte Hmask Hfirst [Hij Hj] Hrj Hdiff.
  rewrite DetectMotors_error_set by exact Hbyte.
  rewrite after_all.
  rewrite (after_error_set bus s 8 i j ltac:(lia) Hlen Hbyte Hmask Hfirst Hij
             ltac:(unfold MOTORS_MAX in Hj; lia) Hrj Hdiff).
  reflexivity.
Qed.

Lemma reference_of_first_coded (bus : I2CBus) (s : State) (i : Z) :
  length (blc_status_ s) = Z.to_nat MOTORS_MAX ->
  first_coded bus i ->
  reference_status_code bus s = reported bus i.
Proof.
  intros Hlen Hfirst. unfold reference_status_code. rewrite after_all.
  destruct Hfirst as [Hi Hrest]. unfold MOTORS_MAX in Hi.
  apply after_code_first; [lia | exact Hlen | | lia].
  split; [unfold MOTORS_MAX; lia | exact Hrest].
Qed.

Lemma reference_without_coded (bus : I2CBus) (s : State) :
  length (blc_status_ s) = Z.to_nat MOTORS_MAX ->
  (forall j, 0 <= j < MOTORS_MAX -> responds bus j = true ->
             reported bus j = BLC_STATUS_UNKNOWN) ->
  reference_status_code bus s = BLC_STATUS_UNKNOWN.
Proof.
  intros Hlen Hzero. unfold reference_status_code. rewrite after_all.
  apply after_code_none; [lia | exact Hlen |].
  intros j Hj. apply Hzero. unfold MOTORS_MAX. lia.
Qed.

Lemma motors_present_spec (bus : I2CBus) (s : State) (j : Z) :
  length (blc_status_ s) = Z.to_nat MOTORS_MAX ->
  Z.testbit (motors_present bus s) j =
    (0 <=? j) && (j <? MOTORS_MAX) && responds bus j.
Proof.
  intros Hlen. unfold motors_present. rewrite after_all.
  apply after_motors; [lia | exact Hlen].
Qed.

(** ** The error bitfield only grows *)

Lemma grows_same (s s' : State) :
  is_u8 (blc_error_bitfield_ s) ->
  blc_error_bitfield_ s' = blc_error_bitfield_ s ->
  grows s s'.
Proof.
  intros Hb He. unfold grows, bits_kept. rewrite He. split; [exact Hb | auto].
Qed.

Lemma grows_trans (s1 s2 s3 : State) : grows s1 s2 -> grows s2 s3 -> grows s1 s3.
Proof.
  intros [_ H12] [Hb H23]. split; [exact Hb |].
  intros k Hk. apply H23, H12, Hk.
Qed.

Lemma grows_or_error (c : Z) (s : State) :
  is_u8 (blc_error_bitfield_ s) -> grows s (or_error c s).
Proof.
  intros Hb. split; cbn [or_error blc_error_bitfield_ set_blc_error_bitfield].
  - apply u8_range.
  - intros k Hk. rewrite u8_testbit, Z.lor_spec, Hk.
    destruct (Z.ltb_spec k 8) as [_ | Hge]; [reflexivity |].
    rewrite (is_u8_testbit_high _ k Hb Hge) in Hk. discriminate.
Qed.

Lemma grows_probe (bus : I2CBus) (l : DetectLocals) (s : State) (i : Z) :
  is_u8 (blc_error_bitfield_ s) ->
  grows s (snd (DetectMotors_probe bus (l, s) i)).
Proof.
  intros Hb. unfold DetectMotors_probe.
  destruct (negb (i2c_error (bus (slot_address i)))); cbn zeta;
    [destruct (_ =? BLC_STATUS_UNKNOWN); [| destruct (negb _)] |];
    cbn [snd]; try (apply grows_same; [exact Hb | reflexivity]).
  apply (grows_or_error _ (store_blc_status i _ s)). exact Hb.
Qed.

Lemma grows_scan (bus : I2CBus) (slots : list Z) (acc : DetectLocals * State) :
  is_u8 (blc_error_bitfield_ (snd acc)) ->
  grows (snd acc) (snd (DetectMotors_scan bus slots acc)).
Proof.
  revert acc. induction slots as [| i slots IH]; intros [l s] Hb.
  - apply grows_same; [exact Hb | reflexivity].
  - unfold DetectMotors_scan. cbn [fold_left].
    pose proof (grows_probe bus l s i Hb) as Hstep.
    destruct (DetectMotors_probe bus (l, s) i) as [l' s'].
    eapply grows_trans; [exact Hstep |].
    apply (IH (l', s')). apply Hstep.
Qed.

Lemma grows_count (seen n : Z) (s : State) :
  is_u8 (blc_error_bitfield_ s) -> grows s (DetectMotors_count seen n s).
Proof.
  intros Hb. unfold DetectMotors_count. cbn zeta.
  set (s0 := set_n_motors n s).
  assert (H0 : grows s s0) by (apply grows_same; [exact Hb | reflexivity]).
  destruct (nonzero (Z.land (low_mask (n_motors_ s0)) (lnot seen))).
  - assert (H1 : grows s (or_error BLC_ERROR_MISSING_MOTOR s0)).
    { eapply grows_trans; [exact H0 |]. apply grows_or_error, H0. }
    destruct (nonzero _); [| exact H1].
    eapply grows_trans; [exact H1 |]. apply grows_or_error, H1.
  - destruct (nonzero _); [| exact H0].
    eapply grows_trans; [exact H0 |]. apply grows_or_error, H0.
Qed.

Lemma grows_DetectMotors (bus : I2CBus) (n : Z) (s : State) :
  is_u8 (blc_error_bitfield_ s) -> grows s (DetectMotors bus n s).
Proof.
  intros Hb. unfold DetectMotors.
  pose proof (grows_scan bus (seqZ 0 MOTORS_MAX)
                (mkDetectLocals 0 BLC_STATUS_UNKNOWN, s) Hb) as Hloop.
  fold (DetectMotors_loop bus s) in Hloop.
  destruct (DetectMotors_loop bus s) as [l s1]. cbn [snd] in Hloop.
  assert (Hsw : grows s (DetectMotors_switch (blc_status_code l) s1)).
  { eapply grows_trans; [exact Hloop |].
    apply grows_same; [apply Hloop | apply DetectMotors_switch_error]. }
  eapply grows_trans; [exact Hsw |]. apply grows_count, Hsw.
Qed.

Lemma SetMotorSetpoint_error (address setpoint : Z) (s : State) :
  blc_error_bitfield_ (SetMotorSetpoint address setpoint s) = blc_error_bitfield_ s.
Proof.
  unfold SetMotorSetpoint. destruct (MOTORS_MAX <=? address); reflexivity.
Qed.

Lemma TxMotorSetpoints_error (sys : System) :
  blc_error_bitfield_ (mem (TxMotorSetpoints sys)) = blc_error_bitfield_ (mem sys).
Proof. reflexivity. Qed.

Lemma TxNextMotorSetpoint_error (sys : System) :
  blc_error_bitfield_ (mem (TxNextMotorSetpoint sys)) = blc_error_bitfield_ (mem sys).
Proof.
  unfold TxNextMotorSetpoint. cbn zeta.
  destruct (nonzero (comms_in_progress_ (mem sys))); reflexivity.
Qed.

Lemma I2CComplete_error (answer : BLCStatus) (sys : System) :
  blc_error_bitfield_ (mem (I2CComplete answer sys)) = blc_error_bitfield_ (mem sys).
Proof.
  unfold I2CComplete. destruct (in_flight sys) as [| t rest]; [reflexivity |].
  rewrite TxNextMotorSetpoint_error.
  destruct (inside_blc_status (rx_slot t)); reflexivity.
Qed.

Lemma grows_step (sys : System) (op : Op) :
  is_u8 (blc_error_bitfield_ (mem sys)) -> grows (mem sys) (mem (step sys op)).
Proof.
  intros Hb. destruct op as [bus n | address setpoint | | | answer]; cbn [step].
  - apply grows_DetectMotors, Hb.
  - apply grows_same; [exact Hb | apply SetMotorSetpoint_error].
  - apply grows_same; [exact Hb | apply TxMotorSetpoints_error].
  - apply grows_same; [exact Hb | reflexivity].
  - apply grows_same; [exact Hb | apply I2CComplete_error].
Qed.

Lemma grows_run (ops : list Op) (sys : System) :
  is_u8 (blc_error_bitfield_ (mem sys)) -> grows (mem sys) (mem (run ops sys)).
Proof.
  revert sys. induction ops as [| op ops IH]; intros sys Hb.
  - apply grows_same; [exact Hb | reflexivity].
  - unfold run. cbn [fold_left].
    pose proof (grows_step sys op Hb) as Hstep.
    eapply grows_trans; [exact Hstep |]. apply IH, Hstep.
Qed.

(** ** The transmission chain *)

Lemma I2CComplete_idle (answer : BLCStatus) (sys : System) :
  in_flight sys = [] -> I2CComplete answer sys = sys.
Proof. intros H. unfold I2CComplete. now rewrite H. Qed.

Lemma completions_idle (answers : list BLCStatus) (sys : System) :
  in_flight sys = [] -> completions answers sys = sys.
Proof.
  intros H. induction answers as [| a answers IH]; [reflexivity |].
  unfold completions in *. cbn [fold_left].
  now rewrite (I2CComplete_idle a sys H).
Qed.

(** [TxMotorSetpoints] starts the chain at the wrapped [n_motors_ - 1]. *)
Lemma TxMotorSetpoints_starts (sys : System) :
  in_flight sys = [] ->
  let len := setpoint_length_ (mem sys) in
  let c := u8 (n_motors_ (mem sys) - 1) in
  chain_at len c (issued sys ++ [request len c]) (TxMotorSetpoints sys).
Proof.
  intros H. cbn zeta. unfold TxMotorSetpoints, TxMotorSetpoint, with_mem.
  cbn. rewrite H. constructor; reflexivity.
Qed.

(** The completion of the transaction of a slot other than 0 hands the
    transaction of the slot below to the transport. *)
Lemma I2CComplete_next (answer : BLCStatus) (len c : Z) (log : list Transaction)
    (sys : System) :
  0 < c < 256 ->
  chain_at len c log sys ->
  chain_at len (c - 1) (log ++ [request len (c - 1)]) (I2CComplete answer sys).
Proof.
  intros Hc [Hfl Hcur Hlen Hlog]. unfold I2CComplete. rewrite Hfl.
  assert (Hnz : nonzero c = true).
  { unfold nonzero. destruct (Z.eqb_spec c 0); [lia | reflexivity]. }
  assert (Hu : u8 (c - 1) = c - 1) by (apply u8_small; unfold is_u8; lia).
  destruct (inside_blc_status (rx_slot (request len c)));
    unfold TxNextMotorSetpoint, TxMotorSetpoint, with_mem;
    cbn [mem in_flight issued overrun comms_in_progress_ setpoint_length_
         set_comms_in_progress store_blc_status set_blc_status app];
    rewrite Hcur, Hnz;
    cbn [mem in_flight issued overrun comms_in_progress_ setpoint_length_
         set_comms_in_progress store_blc_status set_blc_status app];
    rewrite Hu, Hlen, Hlog; constructor; cbn; try reflexivity; exact Hlen.
Qed.

(** The completion of the transaction of slot 0 ends the chain; the cursor
    wraps to 255. *)
Lemma I2CComplete_last (answer : BLCStatus) (len : Z) (log : list Transaction)
    (sys : System) :
  chain_at len 0 log sys ->
  in_flight (I2CComplete answer sys) = [] /\
  issued (I2CComplete answer sys) = log /\
  comms_in_progress_ (mem (I2CComplete answer sys)) = 255.
Proof.
  intros [Hfl Hcur Hlen Hlog]. unfold I2CComplete. rewrite Hfl.
  destruct (inside_blc_status (rx_slot (request len 0)));
    unfold TxNextMotorSetpoint, with_mem;
    cbn [mem in_flight issued overrun comms_in_progress_ setpoint_length_
         set_comms_in_progress store_blc_status set_blc_status];
    rewrite Hcur; cbn; repeat split; assumption.
Qed.

(** The chain after any number of completions: one more slot of the descent
    per completion until slot 0 is done, and nothing after that. *)
Lemma chain_runs (answers : list BLCStatus) :
  forall (c : nat) (len : Z) (log : list Transaction) (sys : System),
    (c < 256)%nat ->
    chain_at len (Z.of_nat c) log sys ->
    issued (completions answers sys) =
      log ++ map (request len) (take (length answers) (downto c)) /\
    in_flight (completions answers sys) =
      (if (length answers <=? c)%nat
       then [request len (Z.of_nat (c - length answers))] else []).
Proof.
  induction answers as [| a answers IH]; intros c len log sys Hc Hat.
  - cbn. rewrite app_nil_r, Nat.sub_0_r. split; apply Hat.
  - unfold completions. cbn [fold_left]. fold (completions answers (I2CComplete a sys)).
    destruct c as [| c].
    + destruct (I2CComplete_last a len log sys Hat) as (Hfl & Hlog & _).
      rewrite (completions_idle answers _ Hfl), Hfl, Hlog.
      cbn. now rewrite app_nil_r.
    + assert (Hnext : chain_at len (Z.of_nat c) (log ++ [request len (Z.of_nat c)])
                               (I2CComplete a sys)).
      { replace (Z.of_nat c) with (Z.of_nat (S c) - 1) by lia.
        apply I2CComplete_next; [lia | exact Hat]. }
      destruct (IH c len _ _ ltac:(lia) Hnext) as [Hlog Hfl].
      rewrite Hlog, Hfl. cbn [length downto take map Nat.leb Nat.sub].
      rewrite <- app_assoc. split; reflexivity.
Qed.

Lemma downto_length (n : nat) : length (downto n) = n.
Proof. induction n as [| n IH]; cbn; [reflexivity | now rewrite IH]. Qed.

Lemma downto_range (n : nat) (x : Z) : In x (downto n) -> 0 <= x < Z.of_nat n.
Proof.
  induction n as [| n IH]; cbn [downto In]; [tauto |].
  intros [<- | H]; [lia |]. specialize (IH H). lia.
Qed.

Lemma downto_descends (n : nat) (i : nat) (x : Z) :
  downto n !! i = Some x -> x = Z.of_nat n - 1 - Z.of_nat i.
Proof.
  revert i. induction n as [| n IH]; intros i; cbn [downto]; [discriminate |].
  destruct i as [| i]; cbn.
  - intros [= <-]. lia.
  - intros H. rewrite (IH i H). lia.
Qed.

Lemma map_tx_slot_request (len : Z) (slots : list Z) :
  map tx_slot (map (request len) slots) = slots.
Proof.
  induction slots as [| x slots IH]; cbn; [reflexivity | now rewrite IH].
Qed.

(** The chain of [n] motors, for [n] from 1 to 255: the slots of the
    transactions handed over are the first ones of [n - 1, ..., 0], one more
    per completion; once [n] answers have come the chain has ended with all
    [n] of them; and never is more than one transaction in flight. *)
Lemma TxMotorSetpoints_chain (n : nat) (answers : list BLCStatus) (sys : System) :
  (1 <= n <= 255)%nat ->
  n_motors_ (mem sys) = Z.of_nat n ->
  in_flight sys = [] ->
  issued sys = [] ->
  let sys' := completions answers (TxMotorSetpoints sys) in
  map tx_slot (issued sys') = take (S (length answers)) (downto n) /\
  (length (in_flight sys') <= 1)%nat /\
  ((n <= length answers)%nat ->
   map tx_slot (issued sys') = downto n /\ in_flight sys' = []).
Proof.
  intros Hn Hmotors Hfl Hlog. cbn zeta.
  pose proof (TxMotorSetpoints_starts sys Hfl) as Hstart. cbn zeta in Hstart.
  rewrite Hmotors, Hlog in Hstart.
  assert (Hu : u8 (Z.of_nat n - 1) = Z.of_nat (n - 1)).
  { rewrite u8_small by (unfold is_u8; lia). lia. }
  rewrite Hu in Hstart. cbn [app] in Hstart.
  destruct (chain_runs answers (n - 1) _ _ _ ltac:(lia) Hstart) as [Hissued Hin].
  rewrite Hissued, Hin.
  assert (Hslots : map tx_slot
            ([request (setpoint_length_ (mem sys)) (Z.of_nat (n - 1))] ++
             map (request (setpoint_length_ (mem sys)))
                 (take (length answers) (downto (n - 1)))) =
            take (S (length answers)) (downto n)).
  { destruct n as [| n]; [lia |]. cbn [Nat.sub]. rewrite Nat.sub_0_r.
    cbn [downto take app map tx_slot request]. now rewrite map_tx_slot_request. }
  rewrite Hslots. split; [reflexivity |]. split.
  - destruct (length answers <=? n - 1)%nat; cbn; lia.
  - intros Hall. split.
    + apply take_ge. rewrite downto_length. lia.
    + destruct (Nat.leb_spec (length answers) (n - 1)); [lia | reflexivity].
Qed.

(** [TxMotorSetpoints] and the completions that follow it, for any value of
    [n_motors_]: the descent starts at the wrapped cursor. *)
Lemma TxMotorSetpoints_completions (answers : list BLCStatus) (sys : System) :
  in_flight sys = [] ->
  let len := setpoint_length_ (mem sys) in
  let c := Z.to_nat (u8 (n_motors_ (mem sys) - 1)) in
  let sys' := completions answers (TxMotorSetpoints sys) in
  issued sys' =
    issued sys ++ map (request len) (take (S (length answers)) (downto (S c))) /\
  in_flight sys' =
    (if (length answers <=? c)%nat
     then [request len (Z.of_nat (c - length answers))] else []).
Proof.
  intros Hfl. cbn zeta.
  pose proof (u8_range (n_motors_ (mem sys) - 1)) as Hr. unfold is_u8 in Hr.
  pose proof (TxMotorSetpoints_starts sys Hfl) as Hstart. cbn zeta in Hstart.
  rewrite <- (Z2Nat.id (u8 (n_motors_ (mem sys) - 1))) in Hstart by lia.
  destruct (chain_runs answers (Z.to_nat (u8 (n_motors_ (mem sys) - 1))) _ _ _
              ltac:(lia) Hstart) as [Hissued Hin].
  rewrite Hissued, Hin, <- app_assoc. split; reflexivity.
Qed.

Lemma Forall_in_bounds_request (len : Z) (slots : list Z) :
  (forall x, In x slots -> 0 <= x < MOTORS_MAX) ->
  Forall in_bounds (map (request len) slots).
Proof.
  intros H. apply List.Forall_forall. intros t Ht.
  apply in_map_iff in Ht as (x & <- & Hx).
  specialize (H x Hx). split; cbn; exact H.
Qed.

(** ** Runs that keep to the arrays *)

(** What one step does to the transactions: it hands some new ones to the
    transport, and it takes at most the oldest one out of flight. *)
Lemma step_transactions (sys : System) (op : Op) :
  exists (new : list Transaction) (done : nat),
    issued (step sys op) = issued sys ++ new /\
    in_flight (step sys op) = drop done (in_flight sys) ++ new.
Proof.
  destruct op as [bus n | address setpoint | | | answer]; cbn [step].
  - exists [], 0%nat. cbn. now rewrite !app_nil_r.
  - exists [], 0%nat. cbn. now rewrite !app_nil_r.
  - eexists [_], 0%nat. cbn. split; reflexivity.
  - exists [], 0%nat. cbn. now rewrite !app_nil_r.
  - unfold I2CComplete. destruct (in_flight sys) as [| t rest] eqn:Hfl.
    + exists [], 0%nat. rewrite Hfl. cbn. now rewrite app_nil_r.
    + unfold TxNextMotorSetpoint, TxMotorSetpoint. cbn zeta.
      destruct (inside_blc_status (rx_slot t)); destruct (nonzero _); cbn;
        first [ eexists [_], 1%nat; cbn; split; reflexivity
              | exists [], 1%nat; cbn; now rewrite !app_nil_r ].
Qed.

Lemma run_issued_prefix (P : Transaction -> Prop) (ops : list Op) (sys : System) :
  Forall P (issued (run ops sys)) -> Forall P (issued sys).
Proof.
  revert sys. induction ops as [| op ops IH]; intros sys H; [exact H |].
  unfold run in H. cbn [fold_left] in H. fold (run ops (step sys op)) in H.
  apply IH in H.
  destruct (step_transactions sys op) as (new & done & Hiss & _).
  rewrite Hiss in H. now apply Forall_app in H.
Qed.

Lemma in_bounds_inside (t : Transaction) :
  in_bounds t -> inside_blc_status (rx_slot t) = true.
Proof.
  intros [_ Hrx]. unfold inside_blc_status.
  destruct (Z.leb_spec 0 (rx_slot t)), (Z.ltb_spec (rx_slot t) MOTORS_MAX);
    try lia; reflexivity.
Qed.

Lemma I2CComplete_overrun (answer : BLCStatus) (sys : System) :
  Forall in_bounds (in_flight sys) ->
  overrun (I2CComplete answer sys) = overrun sys.
Proof.
  intros Hin.
  unfold I2CComplete. destruct (in_flight sys) as [| t rest]; [reflexivity |].
  apply Forall_inv in Hin. rewrite (in_bounds_inside t Hin).
  unfold TxNextMotorSetpoint. cbn zeta. destruct (nonzero _); reflexivity.
Qed.

Lemma step_overrun (sys : System) (op : Op) :
  Forall in_bounds (in_flight sys) -> overrun (step sys op) = overrun sys.
Proof.
  intros Hin. destruct op as [bus n | address setpoint | | | answer];
    cbn [step]; try reflexivity.
  now apply I2CComplete_overrun.
Qed.

(** In a run that keeps to the arrays the transport never writes behind
    [blc_status_], and what is in flight at the end is inside the arrays. *)
Lemma stays_inside_no_overrun (ops : list Op) (sys : System) :
  stays_inside ops sys ->
  overrun (run ops sys) = [] /\ Forall in_bounds (in_flight (run ops sys)).
Proof.
  revert sys. induction ops as [| op ops IH]; intros sys (Hover & Hfl & Hiss).
  - split; assumption.
  - unfold run in *. cbn [fold_left] in *. fold (run ops (step sys op)) in *.
    apply IH. split; [| split; [| exact Hiss]].
    + rewrite step_overrun by exact Hfl. exact Hover.
    + pose proof (run_issued_prefix in_bounds ops (step sys op) Hiss) as Hstep.
      destruct (step_transactions sys op) as (new & done & Hi & Hf).
      rewrite Hi in Hstep. apply Forall_app in Hstep as [_ Hnew].
      rewrite Hf. apply Forall_app. split; [| exact Hnew].
      now apply Forall_drop.
Qed.

(** The chain of a slot inside the arrays never writes behind
    [blc_status_]. *)
Lemma chain_no_overrun (answers : list BLCStatus) :
  forall (c : nat) (len : Z) (log : list Transaction) (sys : System),
    (c < 8)%nat ->
    chain_at len (Z.of_nat c) log sys ->
    overrun (completions answers sys) = overrun sys.
Proof.
  induction answers as [| a answers IH]; intros c len log sys Hc Hat;
    [reflexivity |].
  unfold completions. cbn [fold_left]. fold (completions answers (I2CComplete a sys)).
  assert (Hstep : overrun (I2CComplete a sys) = overrun sys).
  { apply I2CComplete_overrun.
    rewrite (chain_in_flight _ _ _ _ Hat). constructor; [| constructor].
    unfold in_bounds, MOTORS_MAX. cbn. lia. }
  destruct c as [| c].
  - destruct (I2CComplete_last a len log sys Hat) as (Hfl & _ & _).
    now rewrite (completions_idle answers _ Hfl).
  - assert (Hnext : chain_at len (Z.of_nat c) (log ++ [request len (Z.of_nat c)])
                             (I2CComplete a sys)).
    { replace (Z.of_nat c) with (Z.of_nat (S c) - 1) by lia.
      apply I2CComplete_next; [lia | exact Hat]. }
    rewrite (IH c len _ _ ltac:(lia) Hnext). exact Hstep.
Qed.

Lemma in_boundsb_sound (ts : list Transaction) :
  forallb in_boundsb ts = true -> Forall in_bounds ts.
Proof.
  intros H. apply List.Forall_forall. intros t Ht.
  apply (proj1 (forallb_forall in_boundsb ts) H) in Ht.
  unfold in_boundsb, inside_blc_status in Ht.
  apply andb_true_iff in Ht as [Htx Hrx].
  apply andb_true_iff in Htx as [Htx0 Htx1], Hrx as [Hrx0 Hrx1].
  apply Z.leb_le in Htx0, Hrx0. apply Z.ltb_lt in Htx1, Hrx1.
  split; split; assumption.
Qed.

Lemma stays_inside_by_test (ops : list Op) (sys : System) :
  overrun sys = [] ->
  forallb in_boundsb (in_flight sys) = true ->
  forallb in_boundsb (issued (run ops sys)) = true ->
  stays_inside ops sys.
Proof.
  intros Hover Hfl Hiss. split; [exact Hover |].
  split; apply in_boundsb_sound; assumption.
Qed.

(** * The claims *)

(** C3.  From an empty feature bitfield and one-byte setpoints, a discovery
    pass that ends with the status code [BLC_STATUS_V3_FAST_READY] leaves the
    features 20 kHz, V3 and extended status and two-byte setpoints; with
    [BLC_STATUS_V3_READY] it leaves V3 and extended status and two-byte
    setpoints; with [BLC_STATUS_V2_READY] extended status alone and two-byte
    setpoints; with any other code the bitfield stays empty and the setpoints
    one byte long. *)
Theorem DetectMotors_feature_cascade (bus : I2CBus) (n : Z) (s : State) :
  blc_feature_bitfield_ s = 0 ->
  setpoint_length_ s = sizeof_uint8_t ->
  let code := reference_status_code bus s in
  let s' := DetectMotors bus n s in
  (code = BLC_STATUS_V3_FAST_READY ->
     blc_feature_bitfield_ s' =
       Z.lor BLC_FEATURE_20KHz (Z.lor BLC_FEATURE_V3 BLC_FEATURE_EXTENDED_STATUS) /\
     setpoint_length_ s' = sizeof_uint16_t) /\
  (code = BLC_STATUS_V3_READY ->
     blc_feature_bitfield_ s' = Z.lor BLC_FEATURE_V3 BLC_FEATURE_EXTENDED_STATUS /\
     setpoint_length_ s' = sizeof_uint16_t) /\
  (code = BLC_STATUS_V2_READY ->
     blc_feature_bitfield_ s' = BLC_FEATURE_EXTENDED_STATUS /\
     setpoint_length_ s' = sizeof_uint16_t) /\
  (code <> BLC_STATUS_V3_FAST_READY -> code <> BLC_STATUS_V3_READY ->
   code <> BLC_STATUS_V2_READY ->
     blc_feature_bitfield_ s' = 0 /\ setpoint_length_ s' = sizeof_uint8_t).
Proof.
  intros Hfeat Hlen. cbn zeta.
  destruct (DetectMotors_features bus n s) as [-> ->].
  unfold DetectMotors_switch.
  split; [| split; [| split]].
  - intros ->. change (BLC_STATUS_V3_FAST_READY =? BLC_STATUS_V3_FAST_READY) with true.
    cbv iota. unfold case_V3_FAST_READY, case_V3_READY, case_V2_READY, or_feature.
    cbn [blc_feature_bitfield_ setpoint_length_ set_blc_feature_bitfield
         set_setpoint_length].
    rewrite Hfeat. split; reflexivity.
  - intros ->. change (BLC_STATUS_V3_READY =? BLC_STATUS_V3_FAST_READY) with false.
    change (BLC_STATUS_V3_READY =? BLC_STATUS_V3_READY) with true.
    cbv iota. unfold case_V3_READY, case_V2_READY, or_feature.
    cbn [blc_feature_bitfield_ setpoint_length_ set_blc_feature_bitfield
         set_setpoint_length].
    rewrite Hfeat. split; reflexivity.
  - intros ->. change (BLC_STATUS_V2_READY =? BLC_STATUS_V3_FAST_READY) with false.
    change (BLC_STATUS_V2_READY =? BLC_STATUS_V3_READY) with false.
    change (BLC_STATUS_V2_READY =? BLC_STATUS_V2_READY) with true.
    cbv iota. unfold case_V2_READY, or_feature.
    cbn [blc_feature_bitfield_ setpoint_length_ set_blc_feature_bitfield
         set_setpoint_length].
    rewrite Hfeat. split; reflexivity.
  - intros H1 H2 H3.
    apply Z.eqb_neq in H1, H2, H3. rewrite H1, H2, H3. split; assumption.
Qed.

(** C4.  For a slot inside the array and a 16-bit setpoint, the two bytes
    [SetMotorSetpoint] stores decode to the setpoint itself when it is at
    most 2047 and to the setpoint modulo 2048 when it is 2048 or more. *)
Theorem SetMotorSetpoint_roundtrip (address setpoint : Z) (s : State) :
  0 <= address < MOTORS_MAX ->
  is_u16 setpoint ->
  arrays_ok s ->
  exists sp,
    setpoints_ (SetMotorSetpoint address setpoint s) !! Z.to_nat address = Some sp /\
    (setpoint <= 2047 -> decode_setpoint sp = setpoint) /\
    (2048 <= setpoint -> decode_setpoint sp = setpoint mod 2048).
Proof.
  intros Ha Hv Hok. eexists. split.
  - apply SetMotorSetpoint_stored; assumption.
  - unfold decode_setpoint. cbn [bits_11_to_3 bits_2_to_0].
    rewrite split_11_bits. split; intros Hle; [| reflexivity].
    apply Z.mod_small. unfold is_u16 in Hv. lia.
Qed.

(** C5.  For a slot index of [MOTORS_MAX] or more [SetMotorSetpoint] returns
    the state it was given: no setpoint byte and no other variable changes. *)
Theorem SetMotorSetpoint_out_of_range (address setpoint : Z) (s : State) :
  MOTORS_MAX <= address ->
  SetMotorSetpoint address setpoint s = s.
Proof.
  intros Ha. unfold SetMotorSetpoint.
  destruct (Z.leb_spec MOTORS_MAX address); [reflexivity | lia].
Qed.

(** X17.  The comparison of the status codes as the code makes it.  When
    every slot that answers sends the same status code, [DetectMotors] leaves
    the error for inconsistent settings as it was.  The code the loop compares
    against is that of the first slot that answers with a code other than
    [BLC_STATUS_UNKNOWN], and any slot that answers after that one with
    another code raises the error. *)
Theorem DetectMotors_inconsistent_settings (bus : I2CBus) (n : Z) (s : State) :
  length (blc_status_ s) = Z.to_nat MOTORS_MAX ->
  is_u8 BLC_ERROR_INCONSISTENT_SETTINGS ->
  (same_codes bus ->
   Z.land BLC_ERROR_MISSING_MOTOR BLC_ERROR_INCONSISTENT_SETTINGS = 0 ->
   Z.land BLC_ERROR_EXTRA_MOTOR BLC_ERROR_INCONSISTENT_SETTINGS = 0 ->
   error_set (DetectMotors bus n s) BLC_ERROR_INCONSISTENT_SETTINGS =
     error_set s BLC_ERROR_INCONSISTENT_SETTINGS) /\
  (BLC_ERROR_INCONSISTENT_SETTINGS <> 0 ->
   forall i j,
     first_coded bus i -> i < j < MOTORS_MAX ->
     responds bus j = true -> reported bus j <> reported bus i ->
     reference_status_code bus s = reported bus i /\
     error_set (DetectMotors bus n s) BLC_ERROR_INCONSISTENT_SETTINGS = true).
Proof.
  intros Hlen Hbyte. split.
  - intros Hsame Hmiss Hextra.
    apply DetectMotors_agreeing; try assumption.
    apply same_codes_agree, Hsame.
  - intros Hmask i j Hfirst Hij Hrj Hdiff. split.
    + apply reference_of_first_coded; assumption.
    + eapply DetectMotors_differing; eassumption.
Qed.

(** C8.  In a run that keeps to the arrays, whatever happens to the module
    (discovery passes, setpoint writes, transmissions, completions, reads of
    the accessor), the transport writes nothing behind [blc_status_] and a
    bit that is set in the error bitfield is still set: no operation of the
    module clears it.  Of a run with a transaction outside the arrays, whose
    answer is written behind [blc_status_] where the bitfield may lie,
    nothing is stated. *)
Theorem error_bitfield_monotone (ops : list Op) (sys : System) (k : Z) :
  stays_inside ops sys ->
  is_u8 (BLCErrorBitfield (mem sys)) ->
  Z.testbit (BLCErrorBitfield (mem sys)) k = true ->
  overrun (run ops sys) = [] /\
  Z.testbit (BLCErrorBitfield (mem (run ops sys))) k = true.
Proof.
  intros Hinside Hb Hk. split.
  - apply (stays_inside_no_overrun ops sys Hinside).
  - destruct (grows_run ops sys Hb) as [_ Hkept]. apply Hkept, Hk.
Qed.

(** C9.  With [n_motors_] at 0, [TxMotorSetpoints] sets the cursor to 255 and
    hands the transport a transaction for slot 255.  For a byte [n_motors_]
    the transactions of the chain all stay inside the two arrays of
    [MOTORS_MAX] entries exactly when [n_motors_] is between 1 and
    [MOTORS_MAX]. *)
Theorem TxMotorSetpoints_bounds (sys : System) :
  is_u8 (n_motors_ (mem sys)) ->
  in_flight sys = [] ->
  issued sys = [] ->
  (n_motors_ (mem sys) = 0 ->
   comms_in_progress_ (mem (TxMotorSetpoints sys)) = 255 /\
   map tx_slot (issued (TxMotorSetpoints sys)) = [255]) /\
  ((forall answers,
      Forall in_bounds (issued (completions answers (TxMotorSetpoints sys)))) <->
   1 <= n_motors_ (mem sys) <= MOTORS_MAX).
Proof.
  intros Hn Hfl Hlog. split.
  - intros Hzero.
    destruct (TxMotorSetpoints_starts sys Hfl) as [_ Hcur _ Hiss].
    rewrite Hcur, Hiss, Hlog, Hzero. split; reflexivity.
  - unfold is_u8, MOTORS_MAX in *. split.
    + intros Hall. specialize (Hall []).
      destruct (TxMotorSetpoints_starts sys Hfl) as [_ _ _ Hiss].
      cbn [completions fold_left] in Hall. rewrite Hiss, Hlog in Hall.
      apply Forall_inv in Hall. destruct Hall as [Hslot _].
      cbn [request tx_slot] in Hslot. unfold MOTORS_MAX in Hslot.
      destruct (Z.eq_dec (n_motors_ (mem sys)) 0) as [Hz | Hnz].
      * rewrite Hz in Hslot. change (u8 (0 - 1)) with 255 in Hslot. lia.
      * rewrite u8_small in Hslot by (unfold is_u8; lia). lia.
    + intros Hrange answers.
      destruct (TxMotorSetpoints_completions answers sys Hfl) as [Hiss _].
      rewrite Hiss, Hlog. cbn [app].
      apply Forall_in_bounds_request. intros x Hx.
      apply list_elem_of_In, elem_of_take in Hx as (i & Hx & _).
      apply list_elem_of_lookup_2, list_elem_of_In, downto_range in Hx.
      rewrite u8_small in Hx by (unfold is_u8; lia).
      unfold MOTORS_MAX. lia.
Qed.

(** C10, amended.  A slot that answers is marked present whatever code it
    sends.  The reference code is the code of the first slot that answers
    with a code other than [BLC_STATUS_UNKNOWN].  On a bus where the slots
    that answer send [BLC_STATUS_UNKNOWN] or one other code [c], and no slot
    answers with [BLC_STATUS_UNKNOWN] after a slot that answered with [c],
    the error for inconsistent settings stays as it was.  A slot that answers
    with [BLC_STATUS_UNKNOWN] after the reference slot is compared with the
    reference and raises the error. *)
Theorem DetectMotors_unknown_code (bus : I2CBus) (n : Z) (s : State) :
  length (blc_status_ s) = Z.to_nat MOTORS_MAX ->
  is_u8 BLC_ERROR_INCONSISTENT_SETTINGS ->
  (forall i, 0 <= i < MOTORS_MAX -> responds bus i = true ->
             Z.testbit (motors_present bus s) i = true) /\
  (forall i, first_coded bus i -> reference_status_code bus s = reported bus i) /\
  (forall c,
     Z.land BLC_ERROR_MISSING_MOTOR BLC_ERROR_INCONSISTENT_SETTINGS = 0 ->
     Z.land BLC_ERROR_EXTRA_MOTOR BLC_ERROR_INCONSISTENT_SETTINGS = 0 ->
     (forall i, 0 <= i < MOTORS_MAX -> responds bus i = true ->
                reported bus i = BLC_STATUS_UNKNOWN \/ reported bus i = c) ->
     (forall i j, 0 <= i -> i < j -> j < MOTORS_MAX ->
                  responds bus i = true -> responds bus j = true ->
                  reported bus i = c -> reported bus j = c) ->
     error_set (DetectMotors bus n s) BLC_ERROR_INCONSISTENT_SETTINGS =
       error_set s BLC_ERROR_INCONSISTENT_SETTINGS) /\
  (BLC_ERROR_INCONSISTENT_SETTINGS <> 0 ->
   forall i j,
     first_coded bus i -> i < j < MOTORS_MAX ->
     responds bus j = true -> reported bus j = BLC_STATUS_UNKNOWN ->
     error_set (DetectMotors bus n s) BLC_ERROR_INCONSISTENT_SETTINGS = true).
Proof.
  intros Hlen Hbyte. repeat split.
  - intros i Hi Hr. rewrite motors_present_spec by exact Hlen. rewrite Hr.
    destruct (Z.leb_spec 0 i), (Z.ltb_spec i MOTORS_MAX); try lia; reflexivity.
  - intros i Hfirst. apply reference_of_first_coded; assumption.
  - intros c Hmiss Hextra Hcodes Horder.
    apply DetectMotors_agreeing; try assumption.
    intros i j Hi Hij Hj Hri Hrj Hnz.
    assert (Hic : reported bus i = c).
    { destruct (Hcodes i ltac:(lia) Hri) as [Hz | Hc]; [contradiction | exact Hc]. }
    rewrite Hic. apply (Horder i j); assumption.
  - intros Hmask i j Hfirst Hij Hrj Hzero.
    eapply DetectMotors_differing; try eassumption.
    destruct Hfirst as (_ & _ & Hnz & _). congruence.
Qed.

(** * Further properties *)

(** ** SetMotorSetpoint *)

(** Inside the array the two assignments amount to one store of both bytes. *)
Lemma SetMotorSetpoint_in_range (address setpoint : Z) (s : State) :
  address < MOTORS_MAX ->
  SetMotorSetpoint address setpoint s =
    set_setpoints (alter (fun _ => packed setpoint) (Z.to_nat address) (setpoints_ s)) s.
Proof.
  intros Ha. unfold SetMotorSetpoint.
  destruct (Z.leb_spec MOTORS_MAX address); [lia |].
  cbn zeta. unfold set_setpoints at 1 3. cbn [setpoints_ blc_status_
    blc_error_bitfield_ blc_feature_bitfield_ n_motors_ setpoint_length_
    comms_in_progress_ set_setpoints].
  rewrite list_alter_alter_eq. reflexivity.
Qed.

Lemma setpoint_ok_packed (setpoint : Z) : setpoint_ok (packed setpoint).
Proof.
  split; cbn [packed bits_2_to_0 bits_11_to_3]; [| apply u8_range].
  replace (Z.land (u8 setpoint) 7) with (u8 setpoint mod 2 ^ 3)
    by (symmetry; apply (Z.land_ones (u8 setpoint) 3); lia).
  apply Z.mod_pos_bound. lia.
Qed.

(** Past the end of the array nothing is written. *)
Lemma SetMotorSetpoint_out_of_range_eq (address setpoint : Z) (s : State) :
  MOTORS_MAX <= address -> SetMotorSetpoint address setpoint s = s.
Proof.
  intros Ha. unfold SetMotorSetpoint.
  destruct (Z.leb_spec MOTORS_MAX address); [reflexivity | lia].
Qed.

(** X1.  A write to a slot changes nothing but that slot's entry: every other
    entry of [setpoints_] and every other variable keep their values. *)
Theorem SetMotorSetpoint_frame (address setpoint i : Z) (s : State) :
  0 <= address -> 0 <= i -> i <> address ->
  let s' := SetMotorSetpoint address setpoint s in
  setpoints_ s' !! Z.to_nat i = setpoints_ s !! Z.to_nat i /\
  length (setpoints_ s') = length (setpoints_ s) /\
  blc_status_ s' = blc_status_ s /\
  blc_error_bitfield_ s' = blc_error_bitfield_ s /\
  blc_feature_bitfield_ s' = blc_feature_bitfield_ s /\
  n_motors_ s' = n_motors_ s /\
  setpoint_length_ s' = setpoint_length_ s /\
  comms_in_progress_ s' = comms_in_progress_ s.
Proof.
  intros Ha Hi Hne. cbn zeta.
  destruct (Z.le_gt_cases MOTORS_MAX address) as [Hout | Hin].
  - rewrite SetMotorSetpoint_out_of_range_eq by exact Hout. repeat split.
  - rewrite SetMotorSetpoint_in_range by lia.
    cbn [set_setpoints setpoints_ blc_status_ blc_error_bitfield_
         blc_feature_bitfield_ n_motors_ setpoint_length_ comms_in_progress_].
    rewrite list_lookup_alter_ne by lia. rewrite length_alter. repeat split.
Qed.

(** X2.  Writes compose as stores do: a second write to the same slot
    replaces the first, and writes to two different slots can be swapped. *)
Theorem SetMotorSetpoint_compose (a b v w : Z) (s : State) :
  0 <= a -> 0 <= b ->
  SetMotorSetpoint a w (SetMotorSetpoint a v s) = SetMotorSetpoint a w s /\
  (a <> b ->
   SetMotorSetpoint a v (SetMotorSetpoint b w s) =
   SetMotorSetpoint b w (SetMotorSetpoint a v s)).
Proof.
  intros Ha Hb. split.
  - destruct (Z.le_gt_cases MOTORS_MAX a) as [Hout | Hin].
    + now rewrite !SetMotorSetpoint_out_of_range_eq by exact Hout.
    + rewrite !SetMotorSetpoint_in_range by lia.
      unfold set_setpoints. cbn [setpoints_ blc_status_ blc_error_bitfield_
        blc_feature_bitfield_ n_motors_ setpoint_length_ comms_in_progress_].
      rewrite list_alter_alter_eq. reflexivity.
  - intros Hne.
    destruct (Z.le_gt_cases MOTORS_MAX a) as [Ha' | Ha'];
      destruct (Z.le_gt_cases MOTORS_MAX b) as [Hb' | Hb'];
      rewrite ?(SetMotorSetpoint_out_of_range_eq a) by exact Ha';
      rewrite ?(SetMotorSetpoint_out_of_range_eq b) by exact Hb';
      try reflexivity.
    rewrite !SetMotorSetpoint_in_range by lia.
    unfold set_setpoints. cbn [setpoints_ blc_status_ blc_error_bitfield_
      blc_feature_bitfield_ n_motors_ setpoint_length_ comms_in_progress_].
    rewrite list_alter_alter_ne by lia. reflexivity.
Qed.

(** ** DetectMotors: what it reads and what it writes *)

Lemma probe_ext (bus bus' : I2CBus) (acc : DetectLocals * State) (i : Z) :
  bus (slot_address i) = bus' (slot_address i) ->
  DetectMotors_probe bus acc i = DetectMotors_probe bus' acc i.
Proof.
  intros H. destruct acc as [l s]. unfold DetectMotors_probe. now rewrite H.
Qed.

Lemma scan_ext (bus bus' : I2CBus) (slots : list Z) (acc : DetectLocals * State) :
  (forall i, In i slots -> bus (slot_address i) = bus' (slot_address i)) ->
  DetectMotors_scan bus slots acc = DetectMotors_scan bus' slots acc.
Proof.
  revert acc. induction slots as [| i slots IH]; intros acc H; [reflexivity |].
  unfold DetectMotors_scan. cbn [fold_left].
  rewrite (probe_ext bus bus' acc i) by (apply H; now left).
  apply IH. intros j Hj. apply H. now right.
Qed.

(** X3.  A pass looks at the eight addresses [MOTORS_BASE_ADDRESS + 2 i] and
    at nothing else on the bus: two buses that behave alike there give the
    same state. *)
Theorem DetectMotors_reads_eight_addresses (bus bus' : I2CBus) (n : Z) (s : State) :
  (forall i, 0 <= i < MOTORS_MAX -> bus (slot_address i) = bus' (slot_address i)) ->
  DetectMotors bus n s = DetectMotors bus' n s.
Proof.
  intros H. unfold DetectMotors, DetectMotors_loop.
  rewrite (scan_ext bus bus'); [reflexivity |].
  intros i Hi. apply H.
  apply list_elem_of_In, elem_of_seqZ in Hi. lia.
Qed.

Lemma probe_status (bus : I2CBus) (l : DetectLocals) (s : State) (i : Z) :
  blc_status_ (snd (DetectMotors_probe bus (l, s) i)) =
    <[Z.to_nat i := i2c_rx (bus (slot_address i))]> (blc_status_ s).
Proof.
  unfold DetectMotors_probe.
  destruct (negb (i2c_error (bus (slot_address i)))); cbn zeta;
    [destruct (_ =? BLC_STATUS_UNKNOWN); [| destruct (negb _)] |];
    reflexivity.
Qed.

(** After [k] turns the entries below [k] hold what the transport left in
    the receive buffer of their slot. *)
Lemma after_status (bus : I2CBus) (s : State) (k : nat) (i : Z) :
  (k <= 8)%nat ->
  length (blc_status_ s) = Z.to_nat MOTORS_MAX ->
  0 <= i < Z.of_nat k ->
  blc_status_ (snd (after bus s k)) !! Z.to_nat i =
    Some (i2c_rx (bus (slot_address i))).
Proof.
  intros Hk Hlen Hi. induction k as [| k IH]; [lia |].
  rewrite after_S.
  pose proof (after_status_size bus s k Hlen) as Hsz.
  destruct (after bus s k) as [l s0] eqn:E. cbn [snd] in *.
  rewrite probe_status.
  destruct (Z.eq_dec i (Z.of_nat k)) as [-> | Hne].
  - apply list_lookup_insert_eq. rewrite Hsz. unfold MOTORS_MAX. lia.
  - rewrite list_lookup_insert_ne by lia. apply IH; lia.
Qed.

Lemma DetectMotors_switch_frame (code : Z) (s : State) :
  setpoints_ (DetectMotors_switch code s) = setpoints_ s /\
  blc_status_ (DetectMotors_switch code s) = blc_status_ s /\
  n_motors_ (DetectMotors_switch code s) = n_motors_ s /\
  comms_in_progress_ (DetectMotors_switch code s) = comms_in_progress_ s.
Proof.
  unfold DetectMotors_switch.
  destruct (code =? BLC_STATUS_V3_FAST_READY); [repeat split |].
  destruct (code =? BLC_STATUS_V3_READY); [repeat split |].
  destruct (code =? BLC_STATUS_V2_READY); repeat split.
Qed.

Lemma DetectMotors_count_rest (seen n : Z) (s : State) :
  setpoints_ (DetectMotors_count seen n s) = setpoints_ s /\
  blc_status_ (DetectMotors_count seen n s) = blc_status_ s /\
  n_motors_ (DetectMotors_count seen n s) = n /\
  comms_in_progress_ (DetectMotors_count seen n s) = comms_in_progress_ s.
Proof.
  unfold DetectMotors_count. cbn zeta.
  destruct (nonzero (Z.land (low_mask _) (lnot seen)));
    destruct (nonzero (Z.land seen (lnot (low_mask _)))); repeat split.
Qed.

(** What a pass writes besides the two bitfields and the length of the
    setpoints. *)
Lemma DetectMotors_effect (bus : I2CBus) (n : Z) (s : State) :
  length (blc_status_ s) = Z.to_nat MOTORS_MAX ->
  let s' := DetectMotors bus n s in
  (forall i, 0 <= i < MOTORS_MAX ->
     blc_status_ s' !! Z.to_nat i = Some (i2c_rx (bus (slot_address i)))) /\
  length (blc_status_ s') = Z.to_nat MOTORS_MAX /\
  n_motors_ s' = n /\
  setpoints_ s' = setpoints_ s /\
  comms_in_progress_ s' = comms_in_progress_ s.
Proof.
  intros Hlen. cbn zeta. unfold DetectMotors. rewrite after_all.
  pose proof (fun i => after_status bus s 8 i ltac:(lia) Hlen) as Hst.
  pose proof (after_status_size bus s 8 Hlen) as Hsz.
  pose proof (scan_frame bus (seqZ 0 MOTORS_MAX)
                (mkDetectLocals 0 BLC_STATUS_UNKNOWN, s)) as F.
  fold (DetectMotors_loop bus s) in F. rewrite after_all in F.
  destruct (after bus s 8) as [l s1]. cbn [fst snd] in *.
  destruct (DetectMotors_count_rest (motors l) n
              (DetectMotors_switch (blc_status_code l) s1)) as (-> & -> & -> & ->).
  destruct (DetectMotors_switch_frame (blc_status_code l) s1) as (-> & -> & _ & ->).
  destruct F as [Hsp _ _ _ Hcomms _].
  repeat split; assumption.
Qed.

(** X4.  A pass overwrites the status record of every slot with what the
    transport left in its receive buffer, also for a slot that did not
    answer; it stores the EEPROM's count in [n_motors_] and leaves the
    setpoints and the cursor of the transmission alone. *)
Theorem DetectMotors_writes (bus : I2CBus) (n : Z) (s : State) :
  length (blc_status_ s) = Z.to_nat MOTORS_MAX ->
  let s' := DetectMotors bus n s in
  (forall i, 0 <= i < MOTORS_MAX ->
     blc_status_ s' !! Z.to_nat i = Some (i2c_rx (bus (slot_address i)))) /\
  length (blc_status_ s') = Z.to_nat MOTORS_MAX /\
  n_motors_ s' = n /\
  setpoints_ s' = setpoints_ s /\
  comms_in_progress_ s' = comms_in_progress_ s.
Proof.
  intros Hlen. cbn zeta.
  destruct (DetectMotors_effect bus n s Hlen) as (Hst & Hsz & Hn & Hsp & Hcomms).
  split; [exact Hst |]. split; [exact Hsz |]. split; [exact Hn |].
  split; [exact Hsp | exact Hcomms].
Qed.

(** ** DetectMotors: the count test as the code makes it *)

Lemma probe_error_set_disjoint (bus : I2CBus) (l : DetectLocals) (s : State)
    (i mask : Z) :
  is_u8 mask ->
  Z.land BLC_ERROR_INCONSISTENT_SETTINGS mask = 0 ->
  error_set (snd (DetectMotors_probe bus (l, s) i)) mask = error_set s mask.
Proof.
  intros Hm Hdis. unfold DetectMotors_probe.
  destruct (negb (i2c_error (bus (slot_address i)))); cbn zeta;
    [destruct (_ =? BLC_STATUS_UNKNOWN); [| destruct (negb _)] |];
    cbn [snd]; try reflexivity.
  now rewrite error_set_or_error_disjoint.
Qed.

Lemma scan_error_set_disjoint (bus : I2CBus) (slots : list Z)
    (acc : DetectLocals * State) (mask : Z) :
  is_u8 mask ->
  Z.land BLC_ERROR_INCONSISTENT_SETTINGS mask = 0 ->
  error_set (snd (DetectMotors_scan bus slots acc)) mask = error_set (snd acc) mask.
Proof.
  intros Hm Hdis. revert acc.
  induction slots as [| i slots IH]; intros [l s]; [reflexivity |].
  unfold DetectMotors_scan. cbn [fold_left].
  pose proof (probe_error_set_disjoint bus l s i mask Hm Hdis) as Hstep.
  destruct (DetectMotors_probe bus (l, s) i) as [l' s'].
  cbn [snd] in *. rewrite <- Hstep. apply (IH (l', s')).
Qed.

Lemma motors_present_none (bus : I2CBus) (s : State) :
  length (blc_status_ s) = Z.to_nat MOTORS_MAX ->
  (forall i, 0 <= i < MOTORS_MAX -> responds bus i = false) ->
  motors_present bus s = 0.
Proof.
  intros Hlen Hnone. apply Z.bits_inj_0. intros k.
  rewrite motors_present_spec by exact Hlen.
  destruct (Z.leb_spec 0 k), (Z.ltb_spec k MOTORS_MAX); try reflexivity.
  rewrite Hnone by lia. reflexivity.
Qed.

Lemma motors_present_some (bus : I2CBus) (s : State) (i : Z) :
  length (blc_status_ s) = Z.to_nat MOTORS_MAX ->
  0 <= i < MOTORS_MAX -> responds bus i = true ->
  motors_present bus s <> 0.
Proof.
  intros Hlen Hi Hr Hzero.
  pose proof (motors_present_spec bus s i Hlen) as Hbit.
  rewrite Hzero, Z.bits_0, Hr in Hbit.
  destruct (Z.leb_spec 0 i), (Z.ltb_spec i MOTORS_MAX); try lia; discriminate.
Qed.

Lemma motors_present_odd (bus : I2CBus) (s : State) :
  length (blc_status_ s) = Z.to_nat MOTORS_MAX ->
  Z.odd (motors_present bus s) = responds bus 0.
Proof.
  intros Hlen. rewrite <- Z.bit0_odd.
  rewrite motors_present_spec by exact Hlen. reflexivity.
Qed.

(** X5.  The bitfield of the motors seen has bit [j] set exactly when [j] is
    one of the [MOTORS_MAX] slots and the slot answered. *)
Theorem DetectMotors_presence_bitmap (bus : I2CBus) (s : State) (j : Z) :
  length (blc_status_ s) = Z.to_nat MOTORS_MAX ->
  Z.testbit (motors_present bus s) j =
    (0 <=? j) && (j <? MOTORS_MAX) && responds bus j.
Proof. apply motors_present_spec. Qed.

(** X6.  The error for a missing motor as the code raises it, for a count
    [n] whose mask [(1 << n) - 1] fits a 16-bit [int]: a pass in which some
    slot answers never raises it, and a pass in which no slot answers raises
    it exactly when [n] is not 0. *)
Theorem DetectMotors_missing_motor (bus : I2CBus) (n : Z) (s : State) :
  length (blc_status_ s) = Z.to_nat MOTORS_MAX ->
  is_u8 BLC_ERROR_MISSING_MOTOR ->
  BLC_ERROR_MISSING_MOTOR <> 0 ->
  Z.land BLC_ERROR_INCONSISTENT_SETTINGS BLC_ERROR_MISSING_MOTOR = 0 ->
  Z.land BLC_ERROR_EXTRA_MOTOR BLC_ERROR_MISSING_MOTOR = 0 ->
  0 <= n <= 14 ->
  ((exists i, 0 <= i < MOTORS_MAX /\ responds bus i = true) ->
   error_set (DetectMotors bus n s) BLC_ERROR_MISSING_MOTOR =
     error_set s BLC_ERROR_MISSING_MOTOR) /\
  ((forall i, 0 <= i < MOTORS_MAX -> responds bus i = false) ->
   error_set (DetectMotors bus n s) BLC_ERROR_MISSING_MOTOR =
     error_set s BLC_ERROR_MISSING_MOTOR || (0 <? n)).
Proof.
  intros Hlen Hbyte Hmask Hinc Hextra Hn.
  assert (Hset : error_set (DetectMotors bus n s) BLC_ERROR_MISSING_MOTOR =
                 error_set s BLC_ERROR_MISSING_MOTOR
                 || (motors_present bus s =? 0) && (0 <? n)).
  { rewrite DetectMotors_error_set by exact Hbyte.
    unfold DetectMotors_loop.
    rewrite scan_error_set_disjoint by assumption. cbn [snd].
    rewrite Hextra, Z.land_diag, missing_test_spec by lia.
    unfold nonzero. apply Z.eqb_neq in Hmask. rewrite Hmask. cbn [negb Z.eqb].
    now rewrite andb_true_r, andb_false_r, orb_false_r. }
  rewrite Hset. split.
  - intros (i & Hi & Hr).
    pose proof (motors_present_some bus s i Hlen Hi Hr) as Hnz.
    apply Z.eqb_neq in Hnz. rewrite Hnz. apply orb_false_r.
  - intros Hnone. now rewrite (motors_present_none bus s Hlen Hnone).
Qed.

(** X7.  The error for an extra motor as the code raises it, for a count
    [n] whose mask [(1 << n) - 1] fits a 16-bit [int]: a pass raises it
    exactly when [n] is 0 and slot 0 answers. *)
Theorem DetectMotors_extra_motor (bus : I2CBus) (n : Z) (s : State) :
  length (blc_status_ s) = Z.to_nat MOTORS_MAX ->
  is_u8 BLC_ERROR_EXTRA_MOTOR ->
  BLC_ERROR_EXTRA_MOTOR <> 0 ->
  Z.land BLC_ERROR_INCONSISTENT_SETTINGS BLC_ERROR_EXTRA_MOTOR = 0 ->
  Z.land BLC_ERROR_MISSING_MOTOR BLC_ERROR_EXTRA_MOTOR = 0 ->
  0 <= n <= 14 ->
  error_set (DetectMotors bus n s) BLC_ERROR_EXTRA_MOTOR =
    error_set s BLC_ERROR_EXTRA_MOTOR || (n =? 0) && responds bus 0.
Proof.
  intros Hlen Hbyte Hmask Hinc Hmiss Hn.
  rewrite DetectMotors_error_set by exact Hbyte.
  unfold DetectMotors_loop.
  rewrite scan_error_set_disjoint by assumption. cbn [snd].
  rewrite Hmiss, Z.land_diag, extra_test_spec by lia.
  rewrite motors_present_odd by exact Hlen.
  unfold nonzero. apply Z.eqb_neq in Hmask. rewrite Hmask. cbn [negb Z.eqb].
  now rewrite andb_true_r, andb_false_r, orb_false_r.
Qed.

(** X8.  When no slot answers with a status code other than
    [BLC_STATUS_UNKNOWN], and so also when no slot answers at all, the pass
    ends without a reference code and leaves the feature bitfield and the
    length of the setpoints as they were. *)
Theorem DetectMotors_nothing_to_negotiate (bus : I2CBus) (n : Z) (s : State) :
  length (blc_status_ s) = Z.to_nat MOTORS_MAX ->
  (forall j, 0 <= j < MOTORS_MAX -> responds bus j = true ->
             reported bus j = BLC_STATUS_UNKNOWN) ->
  reference_status_code bus s = BLC_STATUS_UNKNOWN /\
  blc_feature_bitfield_ (DetectMotors bus n s) = blc_feature_bitfield_ s /\
  setpoint_length_ (DetectMotors bus n s) = setpoint_length_ s.
Proof.
  intros Hlen Hnone.
  pose proof (reference_without_coded bus s Hlen Hnone) as Href.
  destruct (DetectMotors_features bus n s) as [Hf Hl].
  rewrite Hf, Hl, Href. repeat split.
Qed.

(** ** What the transmission leaves alone *)

Lemma untouched_refl (s : State) : untouched_by_transmission s s.
Proof. now constructor. Qed.

Lemma untouched_trans (s1 s2 s3 : State) :
  untouched_by_transmission s1 s2 -> untouched_by_transmission s2 s3 ->
  untouched_by_transmission s1 s3.
Proof. intros [] []. constructor; congruence. Qed.

Lemma TxMotorSetpoints_untouched (sys : System) :
  untouched_by_transmission (mem sys) (mem (TxMotorSetpoints sys)).
Proof. now constructor. Qed.

Lemma I2CComplete_untouched (answer : BLCStatus) (sys : System) :
  untouched_by_transmission (mem sys) (mem (I2CComplete answer sys)).
Proof.
  unfold I2CComplete. destruct (in_flight sys) as [| t rest];
    [apply untouched_refl |].
  unfold TxNextMotorSetpoint. cbn zeta.
  destruct (inside_blc_status (rx_slot t)); destruct (nonzero _);
    constructor; cbn; try reflexivity; apply length_insert.
Qed.

Lemma completions_untouched (answers : list BLCStatus) (sys : System) :
  untouched_by_transmission (mem sys) (mem (completions answers sys)).
Proof.
  revert sys. induction answers as [| a answers IH]; intros sys;
    [apply untouched_refl |].
  unfold completions. cbn [fold_left].
  eapply untouched_trans; [apply (I2CComplete_untouched a) | apply IH].
Qed.

(** Once slot 0 is done the cursor rests at 255. *)
Lemma chain_rests_at_255 (answers : list BLCStatus) :
  forall (c : nat) (len : Z) (log : list Transaction) (sys : System),
    (c < 256)%nat ->
    chain_at len (Z.of_nat c) log sys ->
    (c < length answers)%nat ->
    comms_in_progress_ (mem (completions answers sys)) = 255.
Proof.
  induction answers as [| a answers IH]; intros c len log sys Hc Hat Hlen;
    [cbn in Hlen; lia |].
  unfold completions. cbn [fold_left]. fold (completions answers (I2CComplete a sys)).
  destruct c as [| c].
  - destruct (I2CComplete_last a len log sys Hat) as (Hfl & _ & Hcur).
    now rewrite (completions_idle answers _ Hfl).
  - assert (Hnext : chain_at len (Z.of_nat c) (log ++ [request len (Z.of_nat c)])
                             (I2CComplete a sys)).
    { replace (Z.of_nat c) with (Z.of_nat (S c) - 1) by lia.
      apply I2CComplete_next; [lia | exact Hat]. }
    apply (IH c len _ _ ltac:(lia) Hnext). cbn in Hlen. lia.
Qed.

(** X9.  A transmission for a count from 1 to [MOTORS_MAX], started with
    nothing in flight: however many of its transactions have completed, the
    transport has written nothing behind [blc_status_], and the setpoints,
    both bitfields, [n_motors_] and the length of the setpoints are as they
    were; it changes status records and the cursor only.  When the chain has
    ended, the cursor rests at 255. *)
Theorem transmission_frame (answers : list BLCStatus) (sys : System) :
  in_flight sys = [] ->
  1 <= n_motors_ (mem sys) <= MOTORS_MAX ->
  let sys' := completions answers (TxMotorSetpoints sys) in
  overrun sys' = overrun sys /\
  setpoints_ (mem sys') = setpoints_ (mem sys) /\
  blc_error_bitfield_ (mem sys') = blc_error_bitfield_ (mem sys) /\
  blc_feature_bitfield_ (mem sys') = blc_feature_bitfield_ (mem sys) /\
  n_motors_ (mem sys') = n_motors_ (mem sys) /\
  setpoint_length_ (mem sys') = setpoint_length_ (mem sys) /\
  length (blc_status_ (mem sys')) = length (blc_status_ (mem sys)) /\
  (n_motors_ (mem sys) <= Z.of_nat (length answers) ->
   comms_in_progress_ (mem sys') = 255).
Proof.
  intros Hfl Hn. cbn zeta. unfold MOTORS_MAX in Hn.
  destruct (untouched_trans _ _ _ (TxMotorSetpoints_untouched sys)
              (completions_untouched answers (TxMotorSetpoints sys)))
    as [H1 H2 H3 H4 H5 H6].
  pose proof (TxMotorSetpoints_starts sys Hfl) as Hstart. cbn zeta in Hstart.
  rewrite (u8_small (n_motors_ (mem sys) - 1)) in Hstart by (unfold is_u8; lia).
  rewrite <- (Z2Nat.id (n_motors_ (mem sys) - 1)) in Hstart by lia.
  split.
  { now rewrite (chain_no_overrun answers (Z.to_nat (n_motors_ (mem sys) - 1)) _ _ _
                   ltac:(lia) Hstart). }
  repeat split; try assumption.
  intros Hall.
  apply (chain_rests_at_255 answers (Z.to_nat (n_motors_ (mem sys) - 1)) _ _ _
           ltac:(lia) Hstart).
  lia.
Qed.

(** ** The features once negotiated *)

Lemma bits_kept_refl (e : Z) : bits_kept e e.
Proof. intros k Hk. exact Hk. Qed.

Lemma bits_kept_trans (a b c : Z) : bits_kept a b -> bits_kept b c -> bits_kept a c.
Proof. intros Hab Hbc k Hk. apply Hbc, Hab, Hk. Qed.

Lemma bits_kept_u8_lor (e c : Z) : is_u8 e -> bits_kept e (u8 (Z.lor e c)).
Proof.
  intros Hb k Hk. rewrite u8_testbit, Z.lor_spec, Hk.
  destruct (Z.ltb_spec k 8) as [_ | Hge]; [reflexivity |].
  rewrite (is_u8_testbit_high _ k Hb Hge) in Hk. discriminate.
Qed.

Lemma or_feature_keeps (mask : Z) (s : State) :
  is_u8 (blc_feature_bitfield_ s) ->
  is_u8 (blc_feature_bitfield_ (or_feature mask s)) /\
  bits_kept (blc_feature_bitfield_ s) (blc_feature_bitfield_ (or_feature mask s)).
Proof.
  intros Hb. cbn [or_feature blc_feature_bitfield_ set_blc_feature_bitfield].
  split; [apply u8_range | now apply bits_kept_u8_lor].
Qed.

Lemma case_V2_READY_keeps (s : State) :
  is_u8 (blc_feature_bitfield_ s) ->
  is_u8 (blc_feature_bitfield_ (case_V2_READY s)) /\
  bits_kept (blc_feature_bitfield_ s) (blc_feature_bitfield_ (case_V2_READY s)).
Proof. intros Hb. apply (or_feature_keeps BLC_FEATURE_EXTENDED_STATUS s Hb). Qed.

Lemma case_V3_READY_keeps (s : State) :
  is_u8 (blc_feature_bitfield_ s) ->
  is_u8 (blc_feature_bitfield_ (case_V3_READY s)) /\
  bits_kept (blc_feature_bitfield_ s) (blc_feature_bitfield_ (case_V3_READY s)).
Proof.
  intros Hb. unfold case_V3_READY.
  destruct (or_feature_keeps BLC_FEATURE_V3 s Hb) as [Hb1 Hk1].
  destruct (case_V2_READY_keeps _ Hb1) as [Hb2 Hk2].
  split; [exact Hb2 | eapply bits_kept_trans; eassumption].
Qed.

Lemma case_V3_FAST_READY_keeps (s : State) :
  is_u8 (blc_feature_bitfield_ s) ->
  is_u8 (blc_feature_bitfield_ (case_V3_FAST_READY s)) /\
  bits_kept (blc_feature_bitfield_ s) (blc_feature_bitfield_ (case_V3_FAST_READY s)).
Proof.
  intros Hb. unfold case_V3_FAST_READY.
  destruct (or_feature_keeps BLC_FEATURE_20KHz s Hb) as [Hb1 Hk1].
  destruct (case_V3_READY_keeps _ Hb1) as [Hb2 Hk2].
  split; [exact Hb2 | eapply bits_kept_trans; eassumption].
Qed.

Lemma DetectMotors_switch_keeps (code : Z) (s : State) :
  is_u8 (blc_feature_bitfield_ s) ->
  is_u8 (blc_feature_bitfield_ (DetectMotors_switch code s)) /\
  bits_kept (blc_feature_bitfield_ s)
            (blc_feature_bitfield_ (DetectMotors_switch code s)) /\
  (setpoint_length_ (DetectMotors_switch code s) = sizeof_uint16_t \/
   setpoint_length_ (DetectMotors_switch code s) = setpoint_length_ s).
Proof.
  intros Hb. unfold DetectMotors_switch.
  destruct (code =? BLC_STATUS_V3_FAST_READY);
    [destruct (case_V3_FAST_READY_keeps s Hb) as [H1 H2];
     split; [exact H1 | split; [exact H2 | left; reflexivity]] |].
  destruct (code =? BLC_STATUS_V3_READY);
    [destruct (case_V3_READY_keeps s Hb) as [H1 H2];
     split; [exact H1 | split; [exact H2 | left; reflexivity]] |].
  destruct (code =? BLC_STATUS_V2_READY);
    [destruct (case_V2_READY_keeps s Hb) as [H1 H2];
     split; [exact H1 | split; [exact H2 | left; reflexivity]] |].
  split; [exact Hb | split; [apply bits_kept_refl | now right]].
Qed.

Lemma step_keeps_features (sys : System) (op : Op) :
  is_u8 (blc_feature_bitfield_ (mem sys)) ->
  is_u8 (blc_feature_bitfield_ (mem (step sys op))) /\
  bits_kept (blc_feature_bitfield_ (mem sys))
            (blc_feature_bitfield_ (mem (step sys op))) /\
  (setpoint_length_ (mem sys) = sizeof_uint16_t ->
   setpoint_length_ (mem (step sys op)) = sizeof_uint16_t).
Proof.
  intros Hb.
  assert (Hsame : forall s' : State,
            blc_feature_bitfield_ s' = blc_feature_bitfield_ (mem sys) ->
            setpoint_length_ s' = setpoint_length_ (mem sys) ->
            is_u8 (blc_feature_bitfield_ s') /\
            bits_kept (blc_feature_bitfield_ (mem sys)) (blc_feature_bitfield_ s') /\
            (setpoint_length_ (mem sys) = sizeof_uint16_t ->
             setpoint_length_ s' = sizeof_uint16_t)).
  { intros s' -> ->. split; [exact Hb | split; [apply bits_kept_refl | auto]]. }
  destruct op as [bus n | address setpoint | | | answer]; cbn [step].
  - cbn [with_mem mem].
    destruct (DetectMotors_features bus n (mem sys)) as [-> ->].
    destruct (DetectMotors_switch_keeps (reference_status_code bus (mem sys))
                (mem sys) Hb) as (H1 & H2 & [H3 | H3]).
    + split; [exact H1 | split; [exact H2 | intros _; exact H3]].
    + split; [exact H1 | split; [exact H2 | intros H; now rewrite H3]].
  - cbn [with_mem mem].
    destruct (Z.le_gt_cases MOTORS_MAX address) as [Hout | Hin].
    + rewrite SetMotorSetpoint_out_of_range_eq by exact Hout.
      now apply Hsame.
    + rewrite SetMotorSetpoint_in_range by lia. now apply Hsame.
  - now apply Hsame.
  - now apply Hsame.
  - destruct (I2CComplete_untouched answer sys) as [_ _ Hf _ Hl _].
    now apply Hsame.
Qed.

Lemma run_keeps_features (ops : list Op) (sys : System) :
  is_u8 (blc_feature_bitfield_ (mem sys)) ->
  (forall k, Z.testbit (blc_feature_bitfield_ (mem sys)) k = true ->
             Z.testbit (blc_feature_bitfield_ (mem (run ops sys))) k = true) /\
  (setpoint_length_ (mem sys) = sizeof_uint16_t ->
   setpoint_length_ (mem (run ops sys)) = sizeof_uint16_t).
Proof.
  revert sys. induction ops as [| op ops IH]; intros sys Hb.
  - split; auto.
  - unfold run. cbn [fold_left]. fold (run ops (step sys op)).
    destruct (step_keeps_features sys op Hb) as (Hb' & Hkept & Hlen).
    destruct (IH (step sys op) Hb') as [IHk IHl].
    split; [intros k Hk; apply IHk, Hkept, Hk | intros H; apply IHl, Hlen, H].
Qed.

(** X10.  What a pass has negotiated stays: in a run that keeps to the
    arrays, whatever happens to the module afterwards, a later pass over
    older controllers or over an empty bus included, a feature bit that is
    set is still set, and setpoints that are two bytes long are still two
    bytes long. *)
Theorem negotiated_features_stay (ops : list Op) (sys : System) :
  stays_inside ops sys ->
  is_u8 (blc_feature_bitfield_ (mem sys)) ->
  overrun (run ops sys) = [] /\
  (forall k, Z.testbit (blc_feature_bitfield_ (mem sys)) k = true ->
             Z.testbit (blc_feature_bitfield_ (mem (run ops sys))) k = true) /\
  (setpoint_length_ (mem sys) = sizeof_uint16_t ->
   setpoint_length_ (mem (run ops sys)) = sizeof_uint16_t).
Proof.
  intros Hinside Hb. split.
  - apply (stays_inside_no_overrun ops sys Hinside).
  - apply run_keeps_features, Hb.
Qed.

(** ** The ranges of the variables *)

Lemma feature_bits_or (f mask : Z) :
  0 <= f < 8 ->
  mask = BLC_FEATURE_EXTENDED_STATUS \/ mask = BLC_FEATURE_V3 \/
  mask = BLC_FEATURE_20KHz ->
  0 <= u8 (Z.lor f mask) < 8.
Proof.
  intros Hf Hmask.
  assert (Hcases : f = 0 \/ f = 1 \/ f = 2 \/ f = 3 \/ f = 4 \/ f = 5 \/ f = 6 \/ f = 7)
    by lia.
  destruct Hmask as [-> | [-> | ->]];
    destruct Hcases as [-> | [-> | [-> | [-> | [-> | [-> | [-> | ->]]]]]]];
    vm_compute; split; congruence.
Qed.

Lemma DetectMotors_switch_feature_bits (code : Z) (s : State) :
  0 <= blc_feature_bitfield_ s < 8 ->
  0 <= blc_feature_bitfield_ (DetectMotors_switch code s) < 8.
Proof.
  intros Hf.
  assert (H1 : forall t, 0 <= blc_feature_bitfield_ t < 8 ->
                         0 <= blc_feature_bitfield_ (case_V2_READY t) < 8).
  { intros t Ht. apply feature_bits_or; auto. }
  assert (H2 : forall t, 0 <= blc_feature_bitfield_ t < 8 ->
                         0 <= blc_feature_bitfield_ (case_V3_READY t) < 8).
  { intros t Ht. apply H1. apply feature_bits_or; auto. }
  assert (H3 : forall t, 0 <= blc_feature_bitfield_ t < 8 ->
                         0 <= blc_feature_bitfield_ (case_V3_FAST_READY t) < 8).
  { intros t Ht. apply H2. apply feature_bits_or; auto. }
  unfold DetectMotors_switch.
  destruct (code =? BLC_STATUS_V3_FAST_READY); [now apply H3 |].
  destruct (code =? BLC_STATUS_V3_READY); [now apply H2 |].
  destruct (code =? BLC_STATUS_V2_READY); [now apply H1 | exact Hf].
Qed.

Lemma DetectMotors_switch_length (code : Z) (s : State) :
  setpoint_length_ s = sizeof_uint8_t \/ setpoint_length_ s = sizeof_uint16_t ->
  setpoint_length_ (DetectMotors_switch code s) = sizeof_uint8_t \/
  setpoint_length_ (DetectMotors_switch code s) = sizeof_uint16_t.
Proof.
  intros Hl. unfold DetectMotors_switch.
  destruct (code =? BLC_STATUS_V3_FAST_READY); [now right |].
  destruct (code =? BLC_STATUS_V3_READY); [now right |].
  destruct (code =? BLC_STATUS_V2_READY); [now right | exact Hl].
Qed.

Lemma State_ok_init : State_ok init_state.
Proof.
  constructor; try reflexivity; try (vm_compute; split; congruence).
  - apply Forall_replicate. vm_compute. repeat split; congruence.
  - now left.
Qed.

Lemma State_ok_DetectMotors (bus : I2CBus) (n : Z) (s : State) :
  is_u8 n -> State_ok s -> State_ok (DetectMotors bus n s).
Proof.
  intros Hn [Hsp Hst Hall Herr Hfeat Hmot Hlen Hcomms].
  destruct (DetectMotors_effect bus n s Hst) as (_ & Hsz & Hn' & Hsp' & Hcomms').
  destruct (DetectMotors_features bus n s) as [Hf Hl].
  constructor.
  - now rewrite Hsp'.
  - exact Hsz.
  - now rewrite Hsp'.
  - apply (grows_DetectMotors bus n s Herr).
  - rewrite Hf. now apply DetectMotors_switch_feature_bits.
  - now rewrite Hn'.
  - rewrite Hl. now apply DetectMotors_switch_length.
  - now rewrite Hcomms'.
Qed.

Lemma State_ok_SetMotorSetpoint (address setpoint : Z) (s : State) :
  State_ok s -> State_ok (SetMotorSetpoint address setpoint s).
Proof.
  intros Hok.
  destruct (Z.le_gt_cases MOTORS_MAX address) as [Hout | Hin].
  - now rewrite SetMotorSetpoint_out_of_range_eq.
  - rewrite SetMotorSetpoint_in_range by lia.
    destruct Hok as [Hsp Hst Hall Herr Hfeat Hmot Hlen Hcomms].
    constructor; cbn; try assumption.
    + now rewrite length_alter.
    + apply Forall_alter; [exact Hall |]. intros _ _ _. apply setpoint_ok_packed.
Qed.

Lemma State_ok_TxMotorSetpoints (sys : System) :
  State_ok (mem sys) -> State_ok (mem (TxMotorSetpoints sys)).
Proof.
  intros [Hsp Hst Hall Herr Hfeat Hmot Hlen Hcomms].
  constructor; cbn; try assumption. apply u8_range.
Qed.

Lemma State_ok_I2CComplete (answer : BLCStatus) (sys : System) :
  State_ok (mem sys) -> State_ok (mem (I2CComplete answer sys)).
Proof.
  intros Hok. unfold I2CComplete.
  destruct (in_flight sys) as [| t rest]; [exact Hok |].
  destruct Hok as [Hsp Hst Hall Herr Hfeat Hmot Hlen Hcomms].
  unfold TxNextMotorSetpoint. cbn zeta.
  destruct (inside_blc_status (rx_slot t)); destruct (nonzero _);
    constructor; cbn; try assumption;
    try apply u8_range; now rewrite length_insert.
Qed.

Lemma run_State_ok (ops : list Op) (sys : System) :
  State_ok (mem sys) ->
  Forall Op_ok ops ->
  State_ok (mem (run ops sys)).
Proof.
  revert sys. induction ops as [| op ops IH]; intros sys Hok Hops; [exact Hok |].
  unfold run. cbn [fold_left]. fold (run ops (step sys op)).
  apply Forall_cons in Hops as [Hop Hops].
  apply IH; [| exact Hops].
  destruct op as [bus n | address setpoint | | | answer]; cbn [step with_mem mem].
  - apply State_ok_DetectMotors; [exact Hop | exact Hok].
  - apply State_ok_SetMotorSetpoint, Hok.
  - apply State_ok_TxMotorSetpoints, Hok.
  - exact Hok.
  - apply State_ok_I2CComplete, Hok.
Qed.

(** X11.  The module keeps its variables in range.  From a state in range,
    over any sequence of calls and completions that keeps to the arrays
    (the EEPROM giving a byte): the transport writes nothing behind
    [blc_status_], both arrays keep their [MOTORS_MAX] entries, every stored
    setpoint keeps three bits in one field and a byte in the other, the
    error bitfield, [n_motors_] and the cursor stay bytes, the feature
    bitfield holds no bit beyond its three, and the length of the setpoints
    is one or two. *)
Theorem variables_stay_in_range (ops : list Op) (sys : System) :
  stays_inside ops sys ->
  State_ok (mem sys) ->
  Forall Op_ok ops ->
  overrun (run ops sys) = [] /\ State_ok (mem (run ops sys)).
Proof.
  intros Hinside Hok Hops. split.
  - apply (stays_inside_no_overrun ops sys Hinside).
  - now apply run_State_ok.
Qed.

(** ** The chain: order and answers *)

(** X12.  The chain of [n] motors, for [n] from 1 to [MOTORS_MAX], started
    with nothing in flight: after any number of completions the transactions
    handed to the transport are the first slots of [n - 1, ..., 0], one more
    than there were completions; at most one transaction is in flight; and
    once [n] completions have come, all [n] slots have been visited, each
    once and in descending order, and nothing is in flight any more. *)
Theorem TxMotorSetpoints_descends (n : nat) (answers : list BLCStatus) (sys : System) :
  (1 <= n <= 8)%nat ->
  n_motors_ (mem sys) = Z.of_nat n ->
  in_flight sys = [] ->
  issued sys = [] ->
  let sys' := completions answers (TxMotorSetpoints sys) in
  map tx_slot (issued sys') = take (S (length answers)) (downto n) /\
  (length (in_flight sys') <= 1)%nat /\
  ((n <= length answers)%nat ->
   map tx_slot (issued sys') = downto n /\
   length (issued sys') = n /\
   in_flight sys' = []).
Proof.
  intros Hn Hmotors Hfl Hlog. cbn zeta.
  destruct (TxMotorSetpoints_chain n answers sys ltac:(lia) Hmotors Hfl Hlog)
    as (Hslots & Hone & Hend).
  split; [exact Hslots |]. split; [exact Hone |].
  intros Hall. destruct (Hend Hall) as [Hdone Hidle].
  split; [exact Hdone |]. split; [| exact Hidle].
  rewrite <- (length_map tx_slot), Hdone. apply downto_length.
Qed.

Lemma I2CComplete_status (answer : BLCStatus) (t : Transaction)
    (rest : list Transaction) (sys : System) :
  in_flight sys = t :: rest ->
  inside_blc_status (rx_slot t) = true ->
  blc_status_ (mem (I2CComplete answer sys)) =
    <[Z.to_nat (rx_slot t) := answer]> (blc_status_ (mem sys)).
Proof.
  intros Hfl Hin. unfold I2CComplete. rewrite Hfl, Hin.
  unfold TxNextMotorSetpoint. cbn zeta. destruct (nonzero _); reflexivity.
Qed.

(** The status records during the chain that waits for slot [c]: answer [k]
    goes to slot [c - k], and the slots above [c] and those the chain has not
    reached yet keep their records. *)
Lemma chain_status (answers : list BLCStatus) :
  forall (c : nat) (len : Z) (log : list Transaction) (sys : System),
    (c < length (blc_status_ (mem sys)))%nat ->
    (c < 8)%nat ->
    chain_at len (Z.of_nat c) log sys ->
    let status' := blc_status_ (mem (completions answers sys)) in
    (forall k a, answers !! k = Some a -> (k <= c)%nat ->
                 status' !! (c - k)%nat = Some a) /\
    (forall j, (c < j)%nat \/ (j + length answers <= c)%nat ->
               status' !! j = blc_status_ (mem sys) !! j).
Proof.
  induction answers as [| a answers IH]; intros c len log sys Hsize Hc Hat; cbn zeta.
  - split; [intros k x Hk; discriminate | reflexivity].
  - unfold completions. cbn [fold_left]. fold (completions answers (I2CComplete a sys)).
    assert (Hin : inside_blc_status (rx_slot (request len (Z.of_nat c))) = true).
    { cbn [request rx_slot]. unfold inside_blc_status, MOTORS_MAX.
      destruct (Z.leb_spec 0 (Z.of_nat c)), (Z.ltb_spec (Z.of_nat c) 8);
        try lia; reflexivity. }
    pose proof (I2CComplete_status a _ _ sys (chain_in_flight _ _ _ _ Hat) Hin)
      as Hstore.
    cbn [request rx_slot] in Hstore. rewrite Nat2Z.id in Hstore.
    destruct c as [| c].
    + destruct (I2CComplete_last a len log sys Hat) as (Hfl & _ & _).
      rewrite (completions_idle answers _ Hfl), Hstore. split.
      * intros k x Hk Hle. assert (k = 0)%nat as -> by lia.
        cbn in Hk. injection Hk as <-. now apply list_lookup_insert_eq.
      * intros j [Hj | Hj]; [| cbn in Hj; lia].
        apply list_lookup_insert_ne. lia.
    + assert (Hnext : chain_at len (Z.of_nat c) (log ++ [request len (Z.of_nat c)])
                               (I2CComplete a sys)).
      { replace (Z.of_nat c) with (Z.of_nat (S c) - 1) by lia.
        apply I2CComplete_next; [lia | exact Hat]. }
      assert (Hsize' : (c < length (blc_status_ (mem (I2CComplete a sys))))%nat).
      { rewrite Hstore, length_insert. lia. }
      destruct (IH c len _ _ Hsize' ltac:(lia) Hnext) as [Hans Hkeep].
      cbn zeta in Hans, Hkeep. split.
      * intros k x Hk Hle. destruct k as [| k].
        -- cbn in Hk. injection Hk as <-. rewrite Nat.sub_0_r.
           rewrite Hkeep by (left; lia). rewrite Hstore.
           now apply list_lookup_insert_eq.
        -- cbn in Hk. cbn [Nat.sub]. apply Hans; [exact Hk | lia].
      * intros j Hj. cbn [length] in Hj.
        rewrite Hkeep by lia. rewrite Hstore.
        apply list_lookup_insert_ne. lia.
Qed.

(** X13.  The chain brings the answers home.  For a count [n] from 1 to
    [MOTORS_MAX], started with nothing in flight: the answer to the [k]-th
    transaction is stored in the status record of slot [n - 1 - k], and the
    records of the slots from [n] on and of the slots the chain has not
    reached yet are as they were. *)
Theorem TxMotorSetpoints_refreshes_status (n : nat) (answers : list BLCStatus)
    (sys : System) :
  (1 <= n <= 8)%nat ->
  n_motors_ (mem sys) = Z.of_nat n ->
  in_flight sys = [] ->
  length (blc_status_ (mem sys)) = Z.to_nat MOTORS_MAX ->
  let status' := blc_status_ (mem (completions answers (TxMotorSetpoints sys))) in
  (forall k a, answers !! k = Some a -> (k < n)%nat ->
               status' !! (n - 1 - k)%nat = Some a) /\
  (forall j, (n <= j)%nat \/ (j + length answers < n)%nat ->
             status' !! j = blc_status_ (mem sys) !! j).
Proof.
  intros Hn Hmotors Hfl Hsize. cbn zeta.
  pose proof (TxMotorSetpoints_starts sys Hfl) as Hstart. cbn zeta in Hstart.
  rewrite Hmotors in Hstart.
  rewrite (u8_small (Z.of_nat n - 1)) in Hstart by (unfold is_u8; lia).
  replace (Z.of_nat n - 1) with (Z.of_nat (n - 1)) in Hstart by lia.
  assert (Hsize' : (n - 1 < length (blc_status_ (mem (TxMotorSetpoints sys))))%nat).
  { change (blc_status_ (mem (TxMotorSetpoints sys))) with (blc_status_ (mem sys)).
    rewrite Hsize. unfold MOTORS_MAX. lia. }
  destruct (chain_status answers (n - 1) _ _ _ Hsize' ltac:(lia) Hstart)
    as [Hans Hkeep].
  cbn zeta in Hans, Hkeep. split.
  - intros k a Hk Hlt. apply Hans; [exact Hk | lia].
  - intros j Hj. rewrite Hkeep by lia. reflexivity.
Qed.

(** ** A second pass over the same bus *)

Lemma ors_app (a b : list Z) (e : Z) : ors (a ++ b) e = ors b (ors a e).
Proof. unfold ors. apply fold_left_app. Qed.

Lemma ors_testbit (masks : list Z) (e k : Z) :
  Z.testbit (ors masks e) k =
    match masks with
    | [] => Z.testbit e k
    | _ => (k <? 8) && (Z.testbit e k || existsb (fun mask => Z.testbit mask k) masks)
    end.
Proof.
  revert e. induction masks as [| mask masks IH]; intros e; [reflexivity |].
  change (ors (mask :: masks) e) with (ors masks (u8 (Z.lor e mask))).
  rewrite IH. cbn [existsb]. destruct masks as [| mask' masks].
  - rewrite u8_testbit, Z.lor_spec. cbn [existsb]. now rewrite orb_false_r.
  - rewrite u8_testbit, Z.lor_spec.
    destruct (k <? 8), (Z.testbit e k), (Z.testbit mask k),
             (existsb (fun m => Z.testbit m k) (mask' :: masks)); reflexivity.
Qed.

Lemma ors_idempotent (masks : list Z) (e : Z) : ors masks (ors masks e) = ors masks e.
Proof.
  apply Z.bits_inj'. intros k _. rewrite (ors_testbit masks (ors masks e)).
  destruct masks as [| mask masks]; [reflexivity |].
  rewrite ors_testbit.
  destruct (k <? 8), (Z.testbit e k),
           (existsb (fun m => Z.testbit m k) (mask :: masks)); reflexivity.
Qed.

(** What the loop holds after [k] turns and what it has done to the error
    bitfield depend on the bus alone. *)
Lemma after_summary (bus : I2CBus) (k : nat) :
  (k <= 8)%nat ->
  exists (l : DetectLocals) (raised : list Z),
    (forall mask, In mask raised -> mask = BLC_ERROR_INCONSISTENT_SETTINGS) /\
    forall s, length (blc_status_ s) = Z.to_nat MOTORS_MAX ->
      fst (after bus s k) = l /\
      blc_error_bitfield_ (snd (after bus s k)) = ors raised (blc_error_bitfield_ s).
Proof.
  intros Hk. induction k as [| k IH].
  - exists (mkDetectLocals 0 BLC_STATUS_UNKNOWN), [].
    split; [intros mask [] |]. intros s _. split; reflexivity.
  - destruct (IH ltac:(lia)) as (l & raised & Honly & Hprev).
    destruct (responds bus (Z.of_nat k)) eqn:Hr;
      [destruct (blc_status_code l =? BLC_STATUS_UNKNOWN) eqn:Hunk;
       [| destruct (reported bus (Z.of_nat k) =? blc_status_code l) eqn:Hsame] |].
    + exists (mkDetectLocals (u8 (Z.lor (motors l) (Z.shiftl 1 (Z.of_nat k))))
                             (reported bus (Z.of_nat k))), raised.
      split; [exact Honly |]. intros s Hlen. destruct (Hprev s Hlen) as [Hl He].
      rewrite after_step by (assumption || lia).
      destruct (after bus s k) as [l0 s0]. cbn [fst snd] in *. subst l0.
      cbn zeta. rewrite Hr, Hunk. split; [reflexivity | exact He].
    + exists (mkDetectLocals (u8 (Z.lor (motors l) (Z.shiftl 1 (Z.of_nat k))))
                             (blc_status_code l)), raised.
      split; [exact Honly |]. intros s Hlen. destruct (Hprev s Hlen) as [Hl He].
      rewrite after_step by (assumption || lia).
      destruct (after bus s k) as [l0 s0]. cbn [fst snd] in *. subst l0.
      cbn zeta. rewrite Hr, Hunk, Hsame. split; [reflexivity | exact He].
    + exists (mkDetectLocals (u8 (Z.lor (motors l) (Z.shiftl 1 (Z.of_nat k))))
                             (blc_status_code l)),
             (raised ++ [BLC_ERROR_INCONSISTENT_SETTINGS]).
      split.
      { intros mask Hin. apply in_app_or in Hin as [Hin | [<- | []]];
          [now apply Honly | reflexivity]. }
      intros s Hlen. destruct (Hprev s Hlen) as [Hl He].
      rewrite after_step by (assumption || lia).
      destruct (after bus s k) as [l0 s0]. cbn [fst snd] in *. subst l0.
      cbn zeta. rewrite Hr, Hunk, Hsame. split; [reflexivity |].
      rewrite ors_app. cbn. now rewrite He.
    + exists l, raised.
      split; [exact Honly |]. intros s Hlen. destruct (Hprev s Hlen) as [Hl He].
      rewrite after_step by (assumption || lia).
      destruct (after bus s k) as [l0 s0]. cbn [fst snd] in *. subst l0.
      cbn zeta. rewrite Hr. split; [reflexivity | exact He].
Qed.

Lemma DetectMotors_count_error (seen n : Z) (s : State) :
  blc_error_bitfield_ (DetectMotors_count seen n s) =
    ors ((if missing_test seen n then [BLC_ERROR_MISSING_MOTOR] else []) ++
         (if extra_test seen n then [BLC_ERROR_EXTRA_MOTOR] else []))
        (blc_error_bitfield_ s).
Proof.
  unfold DetectMotors_count, missing_test, extra_test. cbn zeta.
  cbn [n_motors_ set_n_motors].
  destruct (nonzero (Z.land (low_mask n) (lnot seen)));
    cbn [n_motors_ set_n_motors or_error set_blc_error_bitfield];
    destruct (nonzero (Z.land seen (lnot (low_mask n)))); reflexivity.
Qed.

Lemma DetectMotors_switch_summary (code : Z) :
  exists negotiated : list Z,
    forall s,
      blc_feature_bitfield_ (DetectMotors_switch code s) =
        ors negotiated (blc_feature_bitfield_ s) /\
      setpoint_length_ (DetectMotors_switch code s) =
        match negotiated with
        | [] => setpoint_length_ s
        | _ => sizeof_uint16_t
        end.
Proof.
  unfold DetectMotors_switch.
  destruct (code =? BLC_STATUS_V3_FAST_READY).
  { exists [BLC_FEATURE_20KHz; BLC_FEATURE_V3; BLC_FEATURE_EXTENDED_STATUS].
    intros s. split; reflexivity. }
  destruct (code =? BLC_STATUS_V3_READY).
  { exists [BLC_FEATURE_V3; BLC_FEATURE_EXTENDED_STATUS].
    intros s. split; reflexivity. }
  destruct (code =? BLC_STATUS_V2_READY).
  { exists [BLC_FEATURE_EXTENDED_STATUS]. intros s. split; reflexivity. }
  exists []. intros s. split; reflexivity.
Qed.

(** What a pass does to the two bitfields and to the length of the setpoints
    depends on the bus and on the count alone. *)
Lemma DetectMotors_summary (bus : I2CBus) (n : Z) :
  exists raised negotiated : list Z,
    (forall mask, In mask raised ->
       mask = BLC_ERROR_INCONSISTENT_SETTINGS \/ mask = BLC_ERROR_MISSING_MOTOR \/
       mask = BLC_ERROR_EXTRA_MOTOR) /\
    forall s, length (blc_status_ s) = Z.to_nat MOTORS_MAX ->
      blc_error_bitfield_ (DetectMotors bus n s) =
        ors raised (blc_error_bitfield_ s) /\
      blc_feature_bitfield_ (DetectMotors bus n s) =
        ors negotiated (blc_feature_bitfield_ s) /\
      setpoint_length_ (DetectMotors bus n s) =
        match negotiated with
        | [] => setpoint_length_ s
        | _ => sizeof_uint16_t
        end.
Proof.
  destruct (after_summary bus 8 ltac:(lia)) as (l & raised & Honly & Hloop).
  destruct (DetectMotors_switch_summary (blc_status_code l)) as (negotiated & Hsw).
  exists (raised ++
          (if missing_test (motors l) n then [BLC_ERROR_MISSING_MOTOR] else []) ++
          (if extra_test (motors l) n then [BLC_ERROR_EXTRA_MOTOR] else [])),
         negotiated.
  split.
  { intros mask Hin. apply in_app_or in Hin as [Hin | Hin]; [left; now apply Honly |].
    apply in_app_or in Hin as [Hin | Hin].
    - destruct (missing_test (motors l) n); [| destruct Hin].
      destruct Hin as [<- | []]. right. now left.
    - destruct (extra_test (motors l) n); [| destruct Hin].
      destruct Hin as [<- | []]. right. now right. }
  intros s Hlen. destruct (Hloop s Hlen) as [Hl He].
  destruct (DetectMotors_features bus n s) as [Hf Hlength].
  unfold reference_status_code in Hf, Hlength. rewrite after_all, Hl in Hf, Hlength.
  destruct (Hsw s) as [Hf' Hlength'].
  split; [| split; congruence].
  unfold DetectMotors. rewrite after_all.
  destruct (after bus s 8) as [l0 s1]. cbn [fst snd] in *. subst l0.
  rewrite DetectMotors_count_error, DetectMotors_switch_error, He.
  now rewrite (ors_app raised).
Qed.

Lemma State_eq (s t : State) :
  setpoints_ s = setpoints_ t ->
  blc_status_ s = blc_status_ t ->
  blc_error_bitfield_ s = blc_error_bitfield_ t ->
  blc_feature_bitfield_ s = blc_feature_bitfield_ t ->
  n_motors_ s = n_motors_ t ->
  setpoint_length_ s = setpoint_length_ t ->
  comms_in_progress_ s = comms_in_progress_ t ->
  s = t.
Proof.
  destruct s, t. cbn. intros. subst. reflexivity.
Qed.

(** X14.  A second pass over a bus that behaves as before, with the same
    count, changes nothing: the pass is idempotent. *)
Theorem DetectMotors_idempotent (bus : I2CBus) (n : Z) (s : State) :
  length (blc_status_ s) = Z.to_nat MOTORS_MAX ->
  DetectMotors bus n (DetectMotors bus n s) = DetectMotors bus n s.
Proof.
  intros Hlen.
  destruct (DetectMotors_effect bus n s Hlen) as (Hst & Hsz & Hn & Hsp & Hcomms).
  destruct (DetectMotors_effect bus n (DetectMotors bus n s) Hsz)
    as (Hst' & Hsz' & Hn' & Hsp' & Hcomms').
  destruct (DetectMotors_summary bus n) as (raised & negotiated & _ & Hsum).
  destruct (Hsum s Hlen) as (He & Hf & Hl).
  destruct (Hsum (DetectMotors bus n s) Hsz) as (He' & Hf' & Hl').
  apply State_eq.
  - exact Hsp'.
  - apply list_eq. intros i.
    destruct (Nat.lt_ge_cases i 8) as [Hi | Hi].
    + specialize (Hst (Z.of_nat i) ltac:(unfold MOTORS_MAX; lia)).
      specialize (Hst' (Z.of_nat i) ltac:(unfold MOTORS_MAX; lia)).
      rewrite Nat2Z.id in Hst, Hst'. congruence.
    + rewrite !lookup_ge_None_2; [reflexivity | |]; rewrite ?Hsz, ?Hsz';
        unfold MOTORS_MAX; lia.
  - rewrite He', He. apply ors_idempotent.
  - rewrite Hf', Hf. apply ors_idempotent.
  - congruence.
  - rewrite Hl'. destruct negotiated; [reflexivity | now rewrite Hl].
  - exact Hcomms'.
Qed.

(** ** Errors and transactions of the module's own making *)

(** X15.  A pass sets no bit of the error bitfield but those of its three
    masks: a bit that is set afterwards was set before or belongs to the mask
    for inconsistent settings, for a missing motor or for an extra motor. *)
Theorem DetectMotors_raises_only_its_errors (bus : I2CBus) (n : Z) (s : State)
    (k : Z) :
  length (blc_status_ s) = Z.to_nat MOTORS_MAX ->
  Z.testbit (blc_error_bitfield_ (DetectMotors bus n s)) k = true ->
  Z.testbit (blc_error_bitfield_ s) k = true \/
  Z.testbit BLC_ERROR_INCONSISTENT_SETTINGS k = true \/
  Z.testbit BLC_ERROR_MISSING_MOTOR k = true \/
  Z.testbit BLC_ERROR_EXTRA_MOTOR k = true.
Proof.
  intros Hlen Hbit.
  destruct (DetectMotors_summary bus n) as (raised & negotiated & Honly & Hsum).
  destruct (Hsum s Hlen) as (He & _). rewrite He, ors_testbit in Hbit.
  destruct raised as [| mask raised]; [now left |].
  apply andb_true_iff in Hbit as [_ Hbit].
  apply orb_true_iff in Hbit as [Hbit | Hbit]; [now left |].
  apply existsb_exists in Hbit as (m & Hin & Hm).
  destruct (Honly m Hin) as [-> | [-> | ->]]; auto.
Qed.

(** X16.  Every transaction of a transmission for a count from 1 to
    [MOTORS_MAX], started with nothing in flight, is the one for its slot:
    its buffers are entries of the two arrays, it is sent to the bus address
    [MOTORS_BASE_ADDRESS + 2 slot], which is a byte, with the slot's entry of
    [setpoints_] as transmit buffer in the length the module holds in
    [setpoint_length_], and with the slot's status record as receive buffer
    in its full nine bytes. *)
Theorem transmission_requests (answers : list BLCStatus) (sys : System) :
  in_flight sys = [] ->
  issued sys = [] ->
  1 <= n_motors_ (mem sys) <= MOTORS_MAX ->
  Forall (fun t =>
            in_bounds t /\
            tx_address t = MOTORS_BASE_ADDRESS + 2 * tx_slot t /\
            is_u8 (tx_address t) /\
            tx_length t = setpoint_length_ (mem sys) /\
            rx_slot t = tx_slot t /\
            rx_length t = sizeof_BLCStatus)
         (issued (completions answers (TxMotorSetpoints sys))).
Proof.
  intros Hfl Hlog Hn. unfold MOTORS_MAX in Hn.
  destruct (TxMotorSetpoints_completions answers sys Hfl) as [Hiss _].
  rewrite Hiss, Hlog. cbn [app].
  apply List.Forall_forall. intros t Ht.
  apply in_map_iff in Ht as (x & <- & Hx).
  apply list_elem_of_In, elem_of_take in Hx as (i & Hx & _).
  apply list_elem_of_lookup_2, list_elem_of_In, downto_range in Hx.
  rewrite u8_small in Hx by (unfold is_u8; lia).
  unfold in_bounds, is_u8.
  cbn [request tx_address tx_slot tx_length rx_slot rx_length].
  unfold MOTORS_MAX, MOTORS_BASE_ADDRESS.
  rewrite Z.shiftl_mul_pow2 by lia. repeat split; try reflexivity; lia.
Qed.

End Motors.

(** * Concrete runs *)

Lemma is_u8_sample_INCONSISTENT_SETTINGS : is_u8 sample_INCONSISTENT_SETTINGS.
Proof. unfold is_u8. vm_compute. split; [discriminate | reflexivity]. Qed.

Lemma first_coded_0 (bus : I2CBus) :
  responds bus 0 = true -> reported bus 0 <> BLC_STATUS_UNKNOWN -> first_coded bus 0.
Proof.
  intros Hr Hc. repeat split; try assumption; try (unfold MOTORS_MAX; lia).
Qed.

(** C1.  Two motors are expected, slot 0 answers and slot 1 does not: the pass
    sees motor 0, so [!motors] is 0 and the test for a missing motor does not
    fire.  Whatever the three masks are, the error bitfield stays empty. *)
Theorem DetectMotors_misses_missing_motor :
  responds one_of_two 0 = true /\
  responds one_of_two 1 = false /\
  forall INCONSISTENT MISSING EXTRA,
    motors_present INCONSISTENT one_of_two init_state = 1 /\
    blc_error_bitfield_
      (DetectMotors INCONSISTENT MISSING EXTRA one_of_two 2 init_state) = 0.
Proof.
  repeat split; reflexivity.
Qed.

(** C2.  Two motors are expected and slots 0, 1 and 2 answer with the same
    code: the mask of the expected motors is not zero, so its logical negation
    is 0 and the test for an extra motor does not fire.  Whatever the three
    masks are, the error bitfield stays empty. *)
Theorem DetectMotors_misses_extra_motor :
  responds three_for_two 0 = true /\
  responds three_for_two 1 = true /\
  responds three_for_two 2 = true /\
  forall INCONSISTENT MISSING EXTRA,
    motors_present INCONSISTENT three_for_two init_state = 7 /\
    blc_error_bitfield_
      (DetectMotors INCONSISTENT MISSING EXTRA three_for_two 2 init_state) = 0.
Proof.
  repeat split; reflexivity.
Qed.

(** C3, on a run: one controller that reports [BLC_STATUS_V3_FAST_READY]. *)
Lemma DetectMotors_feature_cascade_witness :
  blc_feature_bitfield_
    (DetectMotors sample_INCONSISTENT_SETTINGS sample_MISSING_MOTOR
                  sample_EXTRA_MOTOR v3_fast 1 init_state) = 7 /\
  setpoint_length_
    (DetectMotors sample_INCONSISTENT_SETTINGS sample_MISSING_MOTOR
                  sample_EXTRA_MOTOR v3_fast 1 init_state) = 2.
Proof.
  exact (proj1 (DetectMotors_feature_cascade
                  sample_INCONSISTENT_SETTINGS sample_MISSING_MOTOR
                  sample_EXTRA_MOTOR v3_fast 1 init_state eq_refl eq_refl)
               eq_refl).
Defined.

(** C4, on a run: the setpoint 5000 written to slot 3. *)
Lemma SetMotorSetpoint_roundtrip_witness :
  exists sp,
    setpoints_ (SetMotorSetpoint 3 5000 init_state) !! Z.to_nat 3 = Some sp /\
    (5000 <= 2047 -> decode_setpoint sp = 5000) /\
    (2048 <= 5000 -> decode_setpoint sp = 5000 mod 2048).
Proof.
  apply (SetMotorSetpoint_roundtrip 3 5000 init_state).
  - unfold MOTORS_MAX. lia.
  - unfold is_u16. lia.
  - split; reflexivity.
Defined.

(** C5, on a run: a write to slot 8. *)
Lemma SetMotorSetpoint_out_of_range_witness :
  SetMotorSetpoint 8 1000 init_state = init_state.
Proof.
  apply (SetMotorSetpoint_out_of_range 8 1000 init_state).
  unfold MOTORS_MAX. lia.
Defined.

(** C6.  Two controllers of different type, one sending
    [BLC_STATUS_UNKNOWN] and one sending [BLC_STATUS_V2_READY].  With the
    first in slot 0, the first slot to answer, and the second in slot 1, the
    pass takes the code of slot 1 as reference and ends without the error for
    inconsistent settings, whatever the masks are: [BLC_STATUS_UNKNOWN] also
    stands for "no reference yet", so the code of slot 0 is never compared.
    With the same two controllers in the other order the pass raises the
    error, for every mask that is a byte other than zero. *)
Theorem first_responder_unknown_not_flagged :
  first_responder unknown_then_v2 0 /\
  responds unknown_then_v2 1 = true /\
  reported unknown_then_v2 1 <> reported unknown_then_v2 0 /\
  (forall INCONSISTENT MISSING EXTRA,
     reference_status_code INCONSISTENT unknown_then_v2 init_state =
       reported unknown_then_v2 1 /\
     error_set (DetectMotors INCONSISTENT MISSING EXTRA unknown_then_v2 2 init_state)
               INCONSISTENT = false) /\
  (forall INCONSISTENT MISSING EXTRA,
     is_u8 INCONSISTENT -> INCONSISTENT <> 0 ->
     error_set (DetectMotors INCONSISTENT MISSING EXTRA v2_then_unknown 2 init_state)
               INCONSISTENT = true).
Proof.
  split; [| split; [| split; [| split]]].
  - repeat split; try reflexivity; try (unfold MOTORS_MAX; lia).
  - reflexivity.
  - discriminate.
  - intros INCONSISTENT MISSING EXTRA. split; reflexivity.
  - intros INCONSISTENT MISSING EXTRA Hbyte Hmask.
    apply (DetectMotors_differing INCONSISTENT MISSING EXTRA v2_then_unknown 2
             init_state 0 1); try assumption; try reflexivity.
    + apply first_coded_0; [reflexivity | discriminate].
    + unfold MOTORS_MAX. lia.
    + discriminate.
Qed.

(** X17, on a run: slot 0 reports V2, slot 1 reports V3. *)
Lemma DetectMotors_inconsistent_settings_witness :
  reference_status_code sample_INCONSISTENT_SETTINGS v2_then_v3 init_state =
    BLC_STATUS_V2_READY /\
  error_set (DetectMotors sample_INCONSISTENT_SETTINGS sample_MISSING_MOTOR
                          sample_EXTRA_MOTOR v2_then_v3 2 init_state)
            sample_INCONSISTENT_SETTINGS = true.
Proof.
  refine (proj2 (DetectMotors_inconsistent_settings
                   sample_INCONSISTENT_SETTINGS sample_MISSING_MOTOR
                   sample_EXTRA_MOTOR v2_then_v3 2 init_state
                   eq_refl is_u8_sample_INCONSISTENT_SETTINGS)
                _ 0 1 _ _ eq_refl _).
  - discriminate.
  - apply first_coded_0; [reflexivity | discriminate].
  - unfold MOTORS_MAX. lia.
  - discriminate.
Defined.

(** C7.  The module starts with [n_motors_] at 0.  [TxMotorSetpoints] then
    hands the transport a transaction for slot 255, and the chain goes on
    from there down to slot 0: 256 transactions where none is due. *)
Theorem TxMotorSetpoints_without_motors :
  n_motors_ (mem init_system) = 0 /\
  map tx_slot (issued (TxMotorSetpoints init_system)) = [255] /\
  forall answers,
    (256 <= length answers)%nat ->
    map tx_slot (issued (completions answers (TxMotorSetpoints init_system))) =
      downto 256 /\
    in_flight (completions answers (TxMotorSetpoints init_system)) = [].
Proof.
  split; [reflexivity |]. split; [reflexivity |].
  intros answers Hlen.
  destruct (TxMotorSetpoints_completions answers init_system eq_refl) as [Hiss Hfl].
  rewrite Hiss, Hfl.
  change (Z.to_nat (u8 (n_motors_ (mem init_system) - 1))) with 255%nat.
  change (issued init_system) with (@nil Transaction). cbn [app].
  rewrite map_tx_slot_request. split.
  - apply take_ge. rewrite downto_length. lia.
  - destruct (Nat.leb_spec (length answers) 255); [lia | reflexivity].
Qed.

(** C8, on a run: the error raised by one discovery pass is still there after
    a second pass, a setpoint write, a transmission of two motors with its
    completions and a read of the accessor. *)
Lemma error_bitfield_monotone_witness :
  let sys :=
    run sample_INCONSISTENT_SETTINGS sample_MISSING_MOTOR sample_EXTRA_MOTOR
        [CallDetectMotors v2_then_v3 2] init_system in
  let ops :=
    [CallDetectMotors one_of_two 2; CallSetMotorSetpoint 0 100;
     CallTxMotorSetpoints; Completion zero_status;
     Completion zero_status; CallBLCErrorBitfield] in
  Z.testbit (BLCErrorBitfield (mem sys)) 0 = true /\
  overrun (run sample_INCONSISTENT_SETTINGS sample_MISSING_MOTOR
               sample_EXTRA_MOTOR ops sys) = [] /\
  Z.testbit
    (BLCErrorBitfield
       (mem (run sample_INCONSISTENT_SETTINGS sample_MISSING_MOTOR
                 sample_EXTRA_MOTOR ops sys))) 0 = true.
Proof.
  cbn zeta. split; [reflexivity |].
  apply (error_bitfield_monotone
           sample_INCONSISTENT_SETTINGS sample_MISSING_MOTOR sample_EXTRA_MOTOR).
  - apply stays_inside_by_test; reflexivity.
  - unfold is_u8. split; [discriminate | reflexivity].
  - reflexivity.
Defined.

(** C9, on a run: the module in its initial state, where [n_motors_] is 0. *)
Lemma TxMotorSetpoints_bounds_witness :
  comms_in_progress_ (mem (TxMotorSetpoints init_system)) = 255 /\
  map tx_slot (issued (TxMotorSetpoints init_system)) = [255].
Proof.
  refine (proj1 (TxMotorSetpoints_bounds init_system _ eq_refl eq_refl) eq_refl).
  unfold is_u8. vm_compute. split; [discriminate | reflexivity].
Defined.

(** C10 as first stated fails: slot 0 sends [BLC_STATUS_V2_READY] and becomes
    the reference, slot 1 answers with [BLC_STATUS_UNKNOWN], is compared with
    the reference and raises the error for inconsistent settings, for every
    mask that is a byte other than zero. *)
Lemma unknown_after_reference_flagged :
  first_coded v2_then_unknown 0 /\
  responds v2_then_unknown 1 = true /\
  reported v2_then_unknown 1 = BLC_STATUS_UNKNOWN /\
  forall INCONSISTENT MISSING EXTRA,
    is_u8 INCONSISTENT -> INCONSISTENT <> 0 ->
    error_set (DetectMotors INCONSISTENT MISSING EXTRA v2_then_unknown 2 init_state)
              INCONSISTENT = true.
Proof.
  assert (Hfirst : first_coded v2_then_unknown 0)
    by (apply first_coded_0; [reflexivity | discriminate]).
  split; [exact Hfirst |]. split; [reflexivity |]. split; [reflexivity |].
  intros INCONSISTENT MISSING EXTRA Hbyte Hmask.
  apply (DetectMotors_differing INCONSISTENT MISSING EXTRA v2_then_unknown 2
           init_state 0 1); try assumption; try reflexivity.
  - unfold MOTORS_MAX. lia.
  - discriminate.
Qed.

(** C10 amended, on a run: slot 0 reports [BLC_STATUS_UNKNOWN], slot 1
    reports V2. *)
Lemma DetectMotors_unknown_code_witness :
  Z.testbit (motors_present sample_INCONSISTENT_SETTINGS unknown_then_v2 init_state) 0
    = true /\
  reference_status_code sample_INCONSISTENT_SETTINGS unknown_then_v2 init_state =
    BLC_STATUS_V2_READY.
Proof.
  pose proof (DetectMotors_unknown_code
                sample_INCONSISTENT_SETTINGS sample_MISSING_MOTOR
                sample_EXTRA_MOTOR unknown_then_v2 2 init_state
                eq_refl is_u8_sample_INCONSISTENT_SETTINGS) as (Hpresent & Href & _).
  split.
  - apply Hpresent; [unfold MOTORS_MAX; lia | reflexivity].
  - apply (Href 1). repeat split; try reflexivity; try (unfold MOTORS_MAX; lia).
    + discriminate.
    + intros j Hj Hr. assert (j = 0) as -> by lia. reflexivity.
Defined.

(** * Concrete runs of the further properties *)

(** X1, on a run: a write to slot 3 seen from slot 4. *)
Lemma SetMotorSetpoint_frame_witness :
  setpoints_ (SetMotorSetpoint 3 5000 init_state) !! Z.to_nat 4 =
  setpoints_ init_state !! Z.to_nat 4.
Proof.
  exact (proj1 (SetMotorSetpoint_frame 3 5000 4 init_state
                  ltac:(lia) ltac:(lia) ltac:(lia))).
Defined.

(** X2, on a run: two writes to slot 2. *)
Lemma SetMotorSetpoint_compose_witness :
  SetMotorSetpoint 2 7 (SetMotorSetpoint 2 9 init_state) =
  SetMotorSetpoint 2 7 init_state.
Proof.
  exact (proj1 (SetMotorSetpoint_compose 2 3 9 7 init_state ltac:(lia) ltac:(lia))).
Defined.

(** X3, on a run: two buses that differ at address 0 only. *)
Lemma DetectMotors_reads_eight_addresses_witness :
  DetectMotors sample_INCONSISTENT_SETTINGS sample_MISSING_MOTOR sample_EXTRA_MOTOR
               one_of_two 2 init_state =
  DetectMotors sample_INCONSISTENT_SETTINGS sample_MISSING_MOTOR sample_EXTRA_MOTOR
               one_of_two_elsewhere 2 init_state.
Proof.
  apply (DetectMotors_reads_eight_addresses
           sample_INCONSISTENT_SETTINGS sample_MISSING_MOTOR sample_EXTRA_MOTOR
           one_of_two one_of_two_elsewhere 2 init_state).
  intros i Hi. unfold one_of_two_elsewhere.
  destruct (Z.eqb_spec (slot_address i) 0) as [Hzero | _]; [| reflexivity].
  unfold slot_address, MOTORS_BASE_ADDRESS in Hzero.
  rewrite Z.shiftl_mul_pow2 in Hzero by lia. lia.
Defined.

(** X4, on a run: slot 1 does not answer and its record is overwritten all
    the same. *)
Lemma DetectMotors_writes_witness :
  blc_status_
    (DetectMotors sample_INCONSISTENT_SETTINGS sample_MISSING_MOTOR
                  sample_EXTRA_MOTOR one_of_two 2 init_state) !! Z.to_nat 1 =
  Some (i2c_rx (one_of_two (slot_address 1))).
Proof.
  apply (proj1 (DetectMotors_writes
                  sample_INCONSISTENT_SETTINGS sample_MISSING_MOTOR
                  sample_EXTRA_MOTOR one_of_two 2 init_state eq_refl) 1).
  unfold MOTORS_MAX. lia.
Defined.

(** X5, on a run: slot 0 of [one_of_two]. *)
Lemma DetectMotors_presence_bitmap_witness :
  Z.testbit (motors_present sample_INCONSISTENT_SETTINGS one_of_two init_state) 0 =
  (0 <=? 0) && (0 <? MOTORS_MAX) && responds one_of_two 0.
Proof.
  apply (DetectMotors_presence_bitmap
           sample_INCONSISTENT_SETTINGS one_of_two init_state 0).
  reflexivity.
Defined.

(** X6, on a run: two motors expected and nothing on the bus. *)
Lemma DetectMotors_missing_motor_witness :
  error_set (DetectMotors sample_INCONSISTENT_SETTINGS sample_MISSING_MOTOR
                          sample_EXTRA_MOTOR nobody 2 init_state)
            sample_MISSING_MOTOR =
  error_set init_state sample_MISSING_MOTOR || (0 <? 2).
Proof.
  refine (proj2 (DetectMotors_missing_motor
                   sample_INCONSISTENT_SETTINGS sample_MISSING_MOTOR
                   sample_EXTRA_MOTOR nobody 2 init_state eq_refl _ _ eq_refl eq_refl _)
                _).
  - unfold is_u8. vm_compute. split; [discriminate | reflexivity].
  - vm_compute. discriminate.
  - lia.
  - intros i _. reflexivity.
Defined.

(** X7, on a run: no motor expected and slot 0 answering. *)
Lemma DetectMotors_extra_motor_witness :
  error_set (DetectMotors sample_INCONSISTENT_SETTINGS sample_MISSING_MOTOR
                          sample_EXTRA_MOTOR one_of_two 0 init_state)
            sample_EXTRA_MOTOR =
  error_set init_state sample_EXTRA_MOTOR || (0 =? 0) && responds one_of_two 0.
Proof.
  apply (DetectMotors_extra_motor
           sample_INCONSISTENT_SETTINGS sample_MISSING_MOTOR sample_EXTRA_MOTOR
           one_of_two 0 init_state eq_refl).
  - unfold is_u8. vm_compute. split; [discriminate | reflexivity].
  - vm_compute. discriminate.
  - reflexivity.
  - reflexivity.
  - lia.
Defined.

(** X8, on a run: nothing on the bus. *)
Lemma DetectMotors_nothing_to_negotiate_witness :
  reference_status_code sample_INCONSISTENT_SETTINGS nobody init_state =
    BLC_STATUS_UNKNOWN /\
  blc_feature_bitfield_
    (DetectMotors sample_INCONSISTENT_SETTINGS sample_MISSING_MOTOR
                  sample_EXTRA_MOTOR nobody 2 init_state) =
    blc_feature_bitfield_ init_state /\
  setpoint_length_
    (DetectMotors sample_INCONSISTENT_SETTINGS sample_MISSING_MOTOR
                  sample_EXTRA_MOTOR nobody 2 init_state) =
    setpoint_length_ init_state.
Proof.
  apply (DetectMotors_nothing_to_negotiate
           sample_INCONSISTENT_SETTINGS sample_MISSING_MOTOR sample_EXTRA_MOTOR
           nobody 2 init_state eq_refl).
  intros j _ Hr. discriminate Hr.
Defined.

(** X10, on a run: V3-fast controllers are found, then a pass finds nothing
    and another finds a V2 controller. *)
Lemma negotiated_features_stay_witness :
  let sys :=
    run sample_INCONSISTENT_SETTINGS sample_MISSING_MOTOR sample_EXTRA_MOTOR
        [CallDetectMotors v3_fast 1] init_system in
  let sys' :=
    run sample_INCONSISTENT_SETTINGS sample_MISSING_MOTOR sample_EXTRA_MOTOR
        [CallDetectMotors nobody 1; CallTxMotorSetpoints; Completion zero_status;
         CallDetectMotors one_of_two 1] sys in
  Z.testbit (blc_feature_bitfield_ (mem sys')) 2 = true /\
  setpoint_length_ (mem sys') = sizeof_uint16_t.
Proof.
  cbn zeta.
  destruct (negotiated_features_stay
              sample_INCONSISTENT_SETTINGS sample_MISSING_MOTOR sample_EXTRA_MOTOR
              [CallDetectMotors nobody 1; CallTxMotorSetpoints;
               Completion zero_status; CallDetectMotors one_of_two 1]
              (run sample_INCONSISTENT_SETTINGS sample_MISSING_MOTOR
                   sample_EXTRA_MOTOR [CallDetectMotors v3_fast 1] init_system))
    as (_ & Hbits & Hlength).
  - apply stays_inside_by_test; reflexivity.
  - unfold is_u8. vm_compute. split; [discriminate | reflexivity].
  - split; [apply Hbits; reflexivity | apply Hlength; reflexivity].
Defined.

(** X11, on a run from the initial state: a pass that expects two motors,
    a setpoint write and the transmission to the two motors. *)
Lemma variables_stay_in_range_witness :
  let ops :=
    [CallDetectMotors v2_then_v3 2; CallSetMotorSetpoint 1 5000;
     CallTxMotorSetpoints; Completion zero_status;
     CallBLCErrorBitfield; Completion zero_status] in
  overrun (run sample_INCONSISTENT_SETTINGS sample_MISSING_MOTOR
               sample_EXTRA_MOTOR ops init_system) = [] /\
  State_ok
    (mem (run sample_INCONSISTENT_SETTINGS sample_MISSING_MOTOR sample_EXTRA_MOTOR
              ops init_system)).
Proof.
  cbn zeta.
  apply (variables_stay_in_range
           sample_INCONSISTENT_SETTINGS sample_MISSING_MOTOR sample_EXTRA_MOTOR).
  - apply stays_inside_by_test; reflexivity.
  - exact State_ok_init.
  - repeat constructor. unfold is_u8. lia.
Defined.

(** X12, on a run: three motors and three completions. *)
Lemma TxMotorSetpoints_descends_witness :
  map tx_slot
    (issued (completions [zero_status; zero_status; zero_status]
                         (TxMotorSetpoints three_motors))) = [2; 1; 0].
Proof.
  exact (proj1 (TxMotorSetpoints_descends 3 [zero_status; zero_status; zero_status]
                  three_motors ltac:(lia) eq_refl eq_refl eq_refl)).
Defined.

(** X13, on a run: the first answer of a chain of three goes to slot 2. *)
Lemma TxMotorSetpoints_refreshes_status_witness :
  blc_status_
    (mem (completions [i2c_rx (answering BLC_STATUS_RUNNING); zero_status]
                      (TxMotorSetpoints three_motors))) !! 2%nat =
  Some (i2c_rx (answering BLC_STATUS_RUNNING)).
Proof.
  apply (proj1 (TxMotorSetpoints_refreshes_status 3
                  [i2c_rx (answering BLC_STATUS_RUNNING); zero_status]
                  three_motors ltac:(lia) eq_refl eq_refl eq_refl)
               0%nat (i2c_rx (answering BLC_STATUS_RUNNING)) eq_refl).
  lia.
Defined.

(** X14, on a run: two passes over [v2_then_v3]. *)
Lemma DetectMotors_idempotent_witness :
  DetectMotors sample_INCONSISTENT_SETTINGS sample_MISSING_MOTOR sample_EXTRA_MOTOR
    v2_then_v3 2
    (DetectMotors sample_INCONSISTENT_SETTINGS sample_MISSING_MOTOR
                  sample_EXTRA_MOTOR v2_then_v3 2 init_state) =
  DetectMotors sample_INCONSISTENT_SETTINGS sample_MISSING_MOTOR sample_EXTRA_MOTOR
    v2_then_v3 2 init_state.
Proof.
  exact (DetectMotors_idempotent
           sample_INCONSISTENT_SETTINGS sample_MISSING_MOTOR sample_EXTRA_MOTOR
           v2_then_v3 2 init_state eq_refl).
Defined.

(** X15, on a run: the bit a pass over [v2_then_v3] sets. *)
Lemma DetectMotors_raises_only_its_errors_witness :
  Z.testbit (blc_error_bitfield_ init_state) 0 = true \/
  Z.testbit sample_INCONSISTENT_SETTINGS 0 = true \/
  Z.testbit sample_MISSING_MOTOR 0 = true \/
  Z.testbit sample_EXTRA_MOTOR 0 = true.
Proof.
  exact (DetectMotors_raises_only_its_errors
           sample_INCONSISTENT_SETTINGS sample_MISSING_MOTOR sample_EXTRA_MOTOR
           v2_then_v3 2 init_state 0 eq_refl eq_refl).
Defined.

(** X16, on a run: the chain of three motors after one completion. *)
Lemma transmission_requests_witness :
  Forall (fun t =>
            in_bounds t /\
            tx_address t = MOTORS_BASE_ADDRESS + 2 * tx_slot t /\
            is_u8 (tx_address t) /\
            tx_length t = setpoint_length_ (mem three_motors) /\
            rx_slot t = tx_slot t /\
            rx_length t = sizeof_BLCStatus)
         (issued (completions [zero_status] (TxMotorSetpoints three_motors))).
Proof.
  apply (transmission_requests [zero_status] three_motors eq_refl eq_refl).
  unfold MOTORS_MAX. cbn. lia.
Defined.

(** X9, on a run: the chain of three motors with its three completions. *)
Lemma transmission_frame_witness :
  overrun (completions [zero_status; zero_status; zero_status]
                       (TxMotorSetpoints three_motors)) = [] /\
  comms_in_progress_
    (mem (completions [zero_status; zero_status; zero_status]
                      (TxMotorSetpoints three_motors))) = 255.
Proof.
  destruct (transmission_frame [zero_status; zero_status; zero_status]
              three_motors eq_refl)
    as (Hover & _ & _ & _ & _ & _ & _ & Hcursor).
  - unfold MOTORS_MAX. cbn. lia.
  - split; [exact Hover | apply Hcursor; cbn; lia].
Defined.
